(** * Onboarding wizard (src/pages/Onboarding.jsx)

    A shallow embedding of the onboarding page: the mount-time route guard,
    the four-step wizard state, the per-step gate [nextDisabled], the field
    updaters, and the submission built by [handleSubmit] and sent by the
    [updateUser] mutation. *)

From Stdlib Require Import List Bool NArith ZArith QArith String Ascii Lia.
From Stdlib Require Import Qcanon DecimalString.
Import ListNotations.

Local Open Scope Z_scope.

(** ** The JavaScript values the page handles *)

Module Js.

(** A JavaScript string is a sequence of UTF-16 code units. *)
Definition jsstring := list N.

(** ASCII literal of the source, as code units. *)
Definition lit (s : string) : jsstring :=
  List.map N_of_ascii (list_ascii_of_string s).

Definition eqb (a b : jsstring) : bool :=
  if list_eq_dec N.eq_dec a b then true else false.

(** ToBoolean on a string: only the empty string is falsy. *)
Definition truthy (s : jsstring) : bool :=
  match s with
  | [] => false
  | _ :: _ => true
  end.

(** WhiteSpace and LineTerminator code points of ECMAScript: the characters
    removed by String.prototype.trim and skipped around a numeric string.
    All of them are in the Basic Multilingual Plane, one code unit each. *)
Definition is_space (c : N) : bool :=
  (N.eqb c 9 || N.eqb c 10 || N.eqb c 11 || N.eqb c 12 || N.eqb c 13
   || N.eqb c 32 || N.eqb c 160 || N.eqb c 5760
   || (N.leb 8192 c && N.leb c 8202)
   || N.eqb c 8232 || N.eqb c 8233 || N.eqb c 8239 || N.eqb c 8287
   || N.eqb c 12288 || N.eqb c 65279)%N%bool.

Fixpoint trimStart (s : jsstring) : jsstring :=
  match s with
  | [] => []
  | c :: rest => if is_space c then trimStart rest else s
  end.

Definition trimEnd (s : jsstring) : jsstring :=
  rev (trimStart (rev s)).

(** String.prototype.trim *)
Definition trim (s : jsstring) : jsstring := trimEnd (trimStart s).

(** *** Number(string)

    A Number is NaN, an infinity, or a finite double, held here by its sign
    and the exact rational magnitude of the double (the sign is kept apart
    because of the negative zero). *)
Inductive number :=
| NaN
| Infinity (negative : bool)
| Finite (negative : bool) (magnitude : Q).

(** Round half to even of the non-negative rational [a / b]. *)
Definition round_half_even (a b : Z) : Z :=
  let q := a / b in
  let r := a mod b in
  match (2 * r) ?= b with
  | Lt => q
  | Gt => q + 1
  | Eq => if Z.even q then q else q + 1
  end.

(** floor (log2 (a / b)) for positive [a] and [b]. *)
Definition floor_log2 (a b : Z) : Z :=
  let e := Z.log2 a - Z.log2 b in
  let ge :=
    if 0 <=? e then (b * 2 ^ e <=? a) else (b <=? a * 2 ^ (- e)) in
  if ge then e else e - 1.

(** The binary64 value nearest to the non-negative rational [a / b]
    (ties to even; subnormals below 2^-1022; overflow to infinity). *)
Definition round_double (negative : bool) (a b : Z) : number :=
  if a =? 0 then Finite negative 0
  else
    let e := floor_log2 a b in
    let k := Z.max (e - 52) (-1074) in
    let m :=
      if 0 <=? k then round_half_even a (b * 2 ^ k)
      else round_half_even (a * 2 ^ (- k)) b in
    if 0 <=? k then
      if 2 ^ 1024 <=? m * 2 ^ k then Infinity negative
      else Finite negative (inject_Z (m * 2 ^ k))
    else Finite negative (Qred (Qmake m (Z.to_pos (2 ^ (- k))))).

Definition digit_value (radix : Z) (c : N) : option Z :=
  let v :=
    if (N.leb 48 c && N.leb c 57)%N%bool then Some (Z.of_N c - 48)
    else if (N.leb 97 c && N.leb c 102)%N%bool then Some (Z.of_N c - 87)
    else if (N.leb 65 c && N.leb c 70)%N%bool then Some (Z.of_N c - 55)
    else None in
  match v with
  | Some d => if d <? radix then Some d else None
  | None => None
  end.

(** Longest prefix of digits in [radix]: accumulated value, number of digits
    read, and the rest of the text. *)
Fixpoint read_digits (radix : Z) (acc : Z) (count : Z) (s : jsstring)
  : Z * Z * jsstring :=
  match s with
  | [] => (acc, count, [])
  | c :: rest =>
      match digit_value radix c with
      | Some d => read_digits radix (acc * radix + d) (count + 1) rest
      | None => (acc, count, s)
      end
  end.

(** ExponentPart, when the whole of [s] is one: e or E, an optional sign,
    one or more decimal digits. *)
Definition read_exponent (s : jsstring) : option Z :=
  match s with
  | c :: rest =>
      if (N.eqb c 101 || N.eqb c 69)%N%bool then
        let '(negative, digits) :=
          match rest with
          | 45%N :: r => (true, r)
          | 43%N :: r => (false, r)
          | _ => (false, rest)
          end in
        match read_digits 10 0 0 digits with
        | (v, n, []) =>
            if 0 <? n then Some (if negative then - v else v) else None
        | _ => None
        end
      else None
  | [] => None
  end.

(** The numeric value [mantissa * 10 ^ exponent] as a double. *)
Definition scale10 (negative : bool) (mantissa exponent : Z) : number :=
  if 0 <=? exponent then round_double negative (mantissa * 10 ^ exponent) 1
  else round_double negative mantissa (10 ^ (- exponent)).

(** StrUnsignedDecimalLiteral: Infinity, or digits with an optional fraction
    and an optional exponent, at least one digit before the exponent. *)
Definition unsigned_decimal (negative : bool) (s : jsstring) : number :=
  if eqb s (lit "Infinity") then Infinity negative
  else
    let '(int_value, int_count, after_int) := read_digits 10 0 0 s in
    let '(mantissa, frac_count, after_frac) :=
      match after_int with
      | 46%N :: r => read_digits 10 int_value 0 r
      | _ => (int_value, 0, after_int)
      end in
    if 0 <? int_count + frac_count then
      match after_frac with
      | [] => scale10 negative mantissa (- frac_count)
      | _ =>
          match read_exponent after_frac with
          | Some e => scale10 negative mantissa (e - frac_count)
          | None => NaN
          end
      end
    else NaN.

(** NonDecimalIntegerLiteral: 0b, 0o or 0x (either case), then digits. *)
Definition non_decimal (s : jsstring) : option number :=
  match s with
  | 48%N :: p :: digits =>
      let radix :=
        if (N.eqb p 120 || N.eqb p 88)%N%bool then Some 16
        else if (N.eqb p 111 || N.eqb p 79)%N%bool then Some 8
        else if (N.eqb p 98 || N.eqb p 66)%N%bool then Some 2
        else None in
      match radix with
      | Some r =>
          match read_digits r 0 0 digits with
          | (v, n, []) =>
              if 0 <? n then Some (round_double false v 1) else Some NaN
          | _ => Some NaN
          end
      | None => None
      end
  | _ => None
  end.

(** Number(s) on a string (StringToNumber): white space around the literal
    is skipped, the empty text is +0, anything that is not a numeric literal
    is NaN. *)
Definition Number (s : jsstring) : number :=
  match trim s with
  | [] => Finite false 0
  | 45%N :: rest => unsigned_decimal true rest
  | 43%N :: rest => unsigned_decimal false rest
  | text =>
      match non_decimal text with
      | Some n => n
      | None => unsigned_decimal false text
      end
  end.

(** A finite double that is an integer greater than zero. *)
Definition is_positive_integer (n : number) : bool :=
  match n with
  | Finite false q =>
      (0 <? Qnum (Qred q)) && Pos.eqb (Qden (Qred q)) 1
  | _ => false
  end.


(** *** Arithmetic on Numbers *)

(** An integer of the source as a Number. *)
Definition of_Z (z : Z) : number := round_double (z <? 0) (Z.abs z) 1.

(** [x / y] *)
Definition div (x y : number) : number :=
  match x, y with
  | NaN, _ => NaN
  | _, NaN => NaN
  | Infinity _, Infinity _ => NaN
  | Infinity s, Finite t _ => Infinity (xorb s t)
  | Finite s _, Infinity t => Finite (xorb s t) 0
  | Finite s p, Finite t q =>
      if Qnum q =? 0
      then if Qnum p =? 0 then NaN else Infinity (xorb s t)
      else round_double (xorb s t)
             (Qnum p * Zpos (Qden q)) (Zpos (Qden p) * Qnum q)
  end.

(** [x * y] *)
Definition mul (x y : number) : number :=
  match x, y with
  | NaN, _ => NaN
  | _, NaN => NaN
  | Infinity s, Infinity t => Infinity (xorb s t)
  | Infinity s, Finite t q =>
      if Qnum q =? 0 then NaN else Infinity (xorb s t)
  | Finite s p, Infinity t =>
      if Qnum p =? 0 then NaN else Infinity (xorb s t)
  | Finite s p, Finite t q =>
      round_double (xorb s t) (Qnum p * Qnum q) (Zpos (Qden p * Qden q))
  end.

(** Decimal digits of a natural number, "0" for zero. *)
Definition decimal (n : Z) : jsstring :=
  lit (NilZero.string_of_uint (N.to_uint (Z.to_N n))).

(** [x.toFixed(0)]: the nearest integer, the larger one on a tie, in
    decimal digits after the sign.  From 10^21 on the method hands over to
    the general Number-to-String conversion, which is not modelled: [None]
    there. *)
Definition toFixed0 (x : number) : option jsstring :=
  match x with
  | NaN => Some (lit "NaN")
  | Infinity false => Some (lit "Infinity")
  | Infinity true => Some (lit "-Infinity")
  | Finite s q =>
      if 10 ^ 21 * Zpos (Qden q) <=? Qnum q then None
      else
        let n := (2 * Qnum q + Zpos (Qden q)) / (2 * Zpos (Qden q)) in
        let negative := s && (0 <? Qnum q) in
        Some ((if negative then [45%N] else []) ++ decimal n)%list
  end.

End Js.

(** ** The form *)

Import Js.

Local Open Scope string_scope.
Local Open Scope Z_scope.

(** The [value] column of the option tables; labels and icons play no part
    in the logic. *)
Definition transportOptions : list jsstring :=
  List.map lit
    ["car_gasoline"; "car_electric"; "car_hybrid"; "motorcycle";
     "public_transport"; "bicycle"; "walk"; "mixed"].

Definition heatingOptions : list jsstring :=
  List.map lit ["electric"; "gas"; "solar"; "none"].

Definition residenceSizeOptions : list jsstring :=
  List.map lit ["small"; "medium"; "large"].

Definition recyclingOptions : list jsstring :=
  List.map lit ["always"; "sometimes"; "rarely"; "never"].

Record FormData := {
  name : jsstring;
  household_size : jsstring;
  transportation_type : jsstring;
  has_solar_panels : bool;
  heating_type : jsstring;
  residence_size : jsstring;
  has_garden : bool;
  recycling_habit : jsstring
}.

Definition initialFormState : FormData :=
  {| name := [];
     household_size := [];
     transportation_type := [];
     has_solar_panels := false;
     heating_type := [];
     residence_size := [];
     has_garden := false;
     recycling_habit := [] |}.

Definition totalSteps : Z := 4.

(** [nextDisabled], a closure over [step] and [formData]. *)
Definition nextDisabled (step : Z) (formData : FormData) : bool :=
  match step with
  | 1 =>
      negb (truthy (trim (name formData)))
      || negb (truthy (household_size formData))
      || negb (truthy (residence_size formData))
  | 2 => negb (truthy (transportation_type formData))
  | 3 => negb (truthy (heating_type formData))
  | 4 => negb (truthy (recycling_habit formData))
  | _ => true
  end.

(** Shape of the object literal [payload] of [handleSubmit]. *)
Record Payload := {
  p_name : jsstring;
  p_household_size : number;
  p_transportation_type : jsstring;
  p_has_solar_panels : bool;
  p_heating_type : jsstring;
  p_residence_size : jsstring;
  p_has_garden : bool;
  p_recycling_habit : jsstring;
  p_onboarding_completed : bool;
  p_has_seen_intro : bool
}.

Definition handleSubmit_payload (formData : FormData) : Payload :=
  {| p_name := trim (name formData);
     p_household_size := Number (household_size formData);
     p_transportation_type := transportation_type formData;
     p_has_solar_panels := has_solar_panels formData;
     p_heating_type := heating_type formData;
     p_residence_size := residence_size formData;
     p_has_garden := has_garden formData;
     p_recycling_habit := recycling_habit formData;
     p_onboarding_completed := true;
     p_has_seen_intro := true |}.

(** *** Field updaters

    Each handler passes [setFormData] a function of the previous form that
    spreads it and overrides one key. *)
Definition with_name (v : jsstring) (prev : FormData) : FormData :=
  {| name := v;
     household_size := household_size prev;
     transportation_type := transportation_type prev;
     has_solar_panels := has_solar_panels prev;
     heating_type := heating_type prev;
     residence_size := residence_size prev;
     has_garden := has_garden prev;
     recycling_habit := recycling_habit prev |}.

Definition with_household_size (v : jsstring) (prev : FormData) : FormData :=
  {| name := name prev;
     household_size := v;
     transportation_type := transportation_type prev;
     has_solar_panels := has_solar_panels prev;
     heating_type := heating_type prev;
     residence_size := residence_size prev;
     has_garden := has_garden prev;
     recycling_habit := recycling_habit prev |}.

Definition with_residence_size (v : jsstring) (prev : FormData) : FormData :=
  {| name := name prev;
     household_size := household_size prev;
     transportation_type := transportation_type prev;
     has_solar_panels := has_solar_panels prev;
     heating_type := heating_type prev;
     residence_size := v;
     has_garden := has_garden prev;
     recycling_habit := recycling_habit prev |}.

Definition toggle_has_garden (prev : FormData) : FormData :=
  {| name := name prev;
     household_size := household_size prev;
     transportation_type := transportation_type prev;
     has_solar_panels := has_solar_panels prev;
     heating_type := heating_type prev;
     residence_size := residence_size prev;
     has_garden := negb (has_garden prev);
     recycling_habit := recycling_habit prev |}.

Definition with_transportation_type (v : jsstring) (prev : FormData)
  : FormData :=
  {| name := name prev;
     household_size := household_size prev;
     transportation_type := v;
     has_solar_panels := has_solar_panels prev;
     heating_type := heating_type prev;
     residence_size := residence_size prev;
     has_garden := has_garden prev;
     recycling_habit := recycling_habit prev |}.

Definition with_heating_type (v : jsstring) (prev : FormData) : FormData :=
  {| name := name prev;
     household_size := household_size prev;
     transportation_type := transportation_type prev;
     has_solar_panels := has_solar_panels prev;
     heating_type := v;
     residence_size := residence_size prev;
     has_garden := has_garden prev;
     recycling_habit := recycling_habit prev |}.

Definition toggle_has_solar_panels (prev : FormData) : FormData :=
  {| name := name prev;
     household_size := household_size prev;
     transportation_type := transportation_type prev;
     has_solar_panels := negb (has_solar_panels prev);
     heating_type := heating_type prev;
     residence_size := residence_size prev;
     has_garden := has_garden prev;
     recycling_habit := recycling_habit prev |}.

Definition with_recycling_habit (v : jsstring) (prev : FormData) : FormData :=
  {| name := name prev;
     household_size := household_size prev;
     transportation_type := transportation_type prev;
     has_solar_panels := has_solar_panels prev;
     heating_type := heating_type prev;
     residence_size := residence_size prev;
     has_garden := has_garden prev;
     recycling_habit := v |}.

(** ** Collaborators: auth context, router, store *)

(** [currentUser] of the auth context; only its [id] is read. *)
Record User := { id : jsstring }.

Inductive PageName := Login | Dashboard.

(** [createPageUrl] comes from the utilities module; it is kept symbolic. *)
Inductive Url := createPageUrl (page : PageName).

(** Error object of the store client; only [code] is inspected. *)
Record StoreError := { code : jsstring }.

(** Values that travel through [throw] and [catch]. *)
Inductive Thrown :=
| StoreFailure (e : StoreError)
| JsError (message : string).

(** Row selected with [select("onboarding_completed")]; the column may hold
    null. *)
Record InfoRow := { onboarding_completed : option bool }.

(** The lookup [from(table).select(columns).eq(column, value).single()]. *)
Record Query := {
  q_from : string;
  q_select : string;
  q_eq : string * jsstring
}.

(** What awaiting the lookup gives: the [{ data, error }] object, or a
    rejection. *)
Inductive LookupOutcome :=
| LookupFulfilled (data : option InfoRow) (error : option StoreError)
| LookupRejected (reason : Thrown).

(** The row [{ user_id: currentUser.id, ...payload }]; the payload has no
    [user_id] key, so the spread overrides nothing. *)
Record Row := { user_id : jsstring; fields : Payload }.

Record UpsertCall := {
  u_from : string;
  u_row : Row;
  u_onConflict : string
}.

Inductive UpsertOutcome :=
| UpsertFulfilled (error : option StoreError)
| UpsertRejected (reason : Thrown).

(** Own properties of the object kept in the [userInfos] state. *)
Definition InfoObject := list (string * option bool).

(** [{ ...userInfos }]: spreading null gives the empty object. *)
Definition spread_infos (data : option InfoRow) : InfoObject :=
  match data with
  | None => []
  | Some r => [("onboarding_completed", onboarding_completed r)]
  end.

(** Calls the page makes on its surroundings and on its own state. *)
Inductive Effect :=
| Navigate (to : Url)
| ConsoleError (message : string) (error : Thrown)
| SetUserInfos (v : InfoObject)
| SetFormData (f : FormData)
| SetLoadingUser (b : bool).

(** ** The route guard *)

Inductive Completion :=
| Normal
| Throw (e : Thrown).

(** Where the [try] block stands after running without interruption: done,
    or suspended at the [await] of the lookup. *)
Inductive Suspension :=
| Finished (c : Completion)
| Awaiting (u : User) (q : Query).

(** The [try] block up to the [await]. *)
Definition guard_try_sync (mounted : bool) (currentUser : option User)
  : list Effect * Suspension :=
  if negb mounted then ([], Finished Normal)
  else
    match currentUser with
    | None => ([Navigate (createPageUrl Login)], Finished Normal)
    | Some u =>
        ([], Awaiting u {| q_from := "tb_user_infos";
                           q_select := "onboarding_completed";
                           q_eq := ("user_id", id u) |})
    end.

(** [userInfos?.onboarding_completed] as a condition. *)
Definition completed_flag (data : option InfoRow) : bool :=
  match data with
  | Some {| onboarding_completed := Some true |} => true
  | _ => false
  end.

(** The condition of the [throw] after the lookup: an error whose code is
    not that of "no rows found". *)
Definition fatal_error (infosError : option StoreError) : option StoreError :=
  match infosError with
  | Some e => if negb (eqb (code e) (lit "PGRST116")) then Some e else None
  | None => None
  end.

(** The [try] block from the [await] on. *)
Definition guard_try_resume (o : LookupOutcome) : list Effect * Completion :=
  match o with
  | LookupRejected reason => ([], Throw reason)
  | LookupFulfilled userInfos infosError =>
      match fatal_error infosError with
      | Some e => ([], Throw (StoreFailure e))
      | None =>
          if completed_flag userInfos
          then ([Navigate (createPageUrl Dashboard)], Normal)
          else ([SetUserInfos (spread_infos userInfos);
                 SetFormData initialFormState], Normal)
      end
  end.

(** The [catch] and [finally] blocks, with the flag as it stands then. *)
Definition guard_handlers (mounted : bool) (c : Completion) : list Effect :=
  (match c with
   | Throw error =>
       ConsoleError "Erro ao verificar onboarding:" error
       :: (if mounted then [Navigate (createPageUrl Login)] else [])
   | Normal => []
   end
   ++ (if mounted then [SetLoadingUser false] else []))%list.

(** [guard()] as called by the effect: everything it does before it returns
    to the caller, and whether a lookup is left in flight. *)
Definition guard_call (mounted : bool) (currentUser : option User)
  : list Effect * option (User * Query) :=
  match guard_try_sync mounted currentUser with
  | (effects, Finished c) => ((effects ++ guard_handlers mounted c)%list, None)
  | (effects, Awaiting u q) => (effects, Some (u, q))
  end.

(** The rest of [guard] once the lookup settles; [mounted] is the flag at
    that time. *)
Definition guard_resume (mounted : bool) (o : LookupOutcome) : list Effect :=
  let '(effects, c) := guard_try_resume o in
  (effects ++ guard_handlers mounted c)%list.

(** ** The [updateUser] mutation *)

(** [mutationFn] up to its [await]: it throws without a user, else it sends
    one upsert. *)
Definition mutationFn_sync (currentUser : option User) (payload : Payload)
  : Thrown + UpsertCall :=
  match currentUser with
  | None => inl (JsError "Usuário não autenticado")
  | Some u =>
      inr {| u_from := "tb_user_infos";
             u_row := {| user_id := id u; fields := payload |};
             u_onConflict := "user_id" |}
  end.

(** [mutationFn] from the [await] on. *)
Definition mutationFn_resume (o : UpsertOutcome) : Thrown + bool :=
  match o with
  | UpsertRejected reason => inl reason
  | UpsertFulfilled (Some error) => inl (StoreFailure error)
  | UpsertFulfilled None => inr true
  end.

(** [onSuccess] of the mutation. *)
Definition onSuccess : list Effect := [Navigate (createPageUrl Dashboard)].

(** Status of a mutation as the query library reports it. *)
Inductive MutationStatus :=
| Idle
| Pending
| Succeeded
| Failed (error : Thrown).

Definition isPending (m : MutationStatus) : bool :=
  match m with
  | Pending => true
  | _ => false
  end.

(** ** The component *)

(** The [useState] cells and the mutation of one mounted page. *)
Record Component := {
  step : Z;
  formData : FormData;
  userInfos : option InfoObject;
  loadingUser : bool;
  updateUser : MutationStatus
}.

Definition initialComponent : Component :=
  {| step := 1;
     formData := initialFormState;
     userInfos := None;
     loadingUser := true;
     updateUser := Idle |}.

(** The control at the right of the button row. *)
Inductive ForwardControl :=
| NextButton (disabled : bool)
| FinishButton (disabled : bool) (saving : bool).

(** What the second [return] of the component puts on screen, as far as the
    logic goes: the step whose panel is keyed, whether the back button is
    there, and the forward control. *)
Record Wizard := {
  panel : Z;
  back_button : bool;
  forward : ForwardControl
}.

Inductive View :=
| Spinner
| WizardView (v : Wizard).

Definition wizard (c : Component) : Wizard :=
  {| panel := step c;
     back_button := 1 <? step c;
     forward :=
       if step c <? totalSteps
       then NextButton (nextDisabled (step c) (formData c))
       else FinishButton
              (isPending (updateUser c) || nextDisabled (step c) (formData c))
              (isPending (updateUser c)) |}.

(** The component function: the spinner while [loadingUser], else the
    wizard. *)
Definition render (c : Component) : View :=
  if loadingUser c then Spinner else WizardView (wizard c).


Definition setStep (f : Z -> Z) (c : Component) : Component :=
  {| step := f (step c);
     formData := formData c;
     userInfos := userInfos c;
     loadingUser := loadingUser c;
     updateUser := updateUser c |}.

Definition setFormData (f : FormData -> FormData) (c : Component)
  : Component :=
  {| step := step c;
     formData := f (formData c);
     userInfos := userInfos c;
     loadingUser := loadingUser c;
     updateUser := updateUser c |}.

Definition setUserInfos (v : option InfoObject) (c : Component) : Component :=
  {| step := step c;
     formData := formData c;
     userInfos := v;
     loadingUser := loadingUser c;
     updateUser := updateUser c |}.

Definition setLoadingUser (b : bool) (c : Component) : Component :=
  {| step := step c;
     formData := formData c;
     userInfos := userInfos c;
     loadingUser := b;
     updateUser := updateUser c |}.

Definition set_updateUser (m : MutationStatus) (c : Component) : Component :=
  {| step := step c;
     formData := formData c;
     userInfos := userInfos c;
     loadingUser := loadingUser c;
     updateUser := m |}.

(** The edits the panels offer. *)
Inductive FieldEdit :=
| EditName (v : jsstring)
| EditHouseholdSize (v : jsstring)
| PickResidenceSize (v : jsstring)
| ToggleGarden
| PickTransportationType (v : jsstring)
| PickHeatingType (v : jsstring)
| ToggleSolarPanels
| PickRecyclingHabit (v : jsstring).

(** The updater each edit hands to [setFormData]. *)
Definition updater (e : FieldEdit) : FormData -> FormData :=
  match e with
  | EditName v => with_name v
  | EditHouseholdSize v => with_household_size v
  | PickResidenceSize v => with_residence_size v
  | ToggleGarden => toggle_has_garden
  | PickTransportationType v => with_transportation_type v
  | PickHeatingType v => with_heating_type v
  | ToggleSolarPanels => toggle_has_solar_panels
  | PickRecyclingHabit v => with_recycling_habit v
  end.

Definition mem (v : jsstring) (options : list jsstring) : bool :=
  existsb (eqb v) options.

(** An edit is on screen when its panel is, and a pick offers only the
    values of its option table. *)
Definition offered (shown : Z) (e : FieldEdit) : bool :=
  match e with
  | EditName _ => shown =? 1
  | EditHouseholdSize _ => shown =? 1
  | PickResidenceSize v => (shown =? 1) && mem v residenceSizeOptions
  | ToggleGarden => shown =? 1
  | PickTransportationType v => (shown =? 2) && mem v transportOptions
  | PickHeatingType v => (shown =? 3) && mem v heatingOptions
  | ToggleSolarPanels => shown =? 3
  | PickRecyclingHabit v => (shown =? 4) && mem v recyclingOptions
  end.

(** ** The page in its surroundings *)

(** Besides the component and the traffic with its collaborators, the
    world holds what two libraries keep between renders.

    [presented] is the key of the step panel that AnimatePresence has
    mounted.  With mode "wait" the panel of the step just left stays
    mounted, its handlers live, until its exit animation ends; only then
    is the panel of the current step mounted.  The first panel is the one
    of the initial step.

    [rendered_current] tells whether the last render of the component has
    read the current result of the mutation.  [mutate] turns the mutation
    pending at once, but the component is told on a later timer tick;
    until then, or until a state update renders it again, the screen shows
    the result from before.  [updateUser] of the component is the current
    result.

    [earlier_upserts] counts the upserts still in flight for mutations
    the hook no longer follows: each [mutate] starts a mutation of its own
    and the hook follows the latest, while [onSuccess] of the options
    still runs for the earlier ones. *)
Record World := {
  currentUser : option User;
  mounted : bool;
  lookup_in_flight : bool;
  comp : Component;
  navigations : list Url;
  console : list (string * Thrown);
  lookups : list Query;
  upserts : list UpsertCall;
  presented : Z;
  rendered_current : bool;
  earlier_upserts : nat
}.

(** A state update of the component: the new state, and a render that
    reads it together with the current result of the mutation. *)
Definition on_comp (f : Component -> Component) (w : World) : World :=
  {| currentUser := currentUser w;
     mounted := mounted w;
     lookup_in_flight := lookup_in_flight w;
     comp := f (comp w);
     navigations := navigations w;
     console := console w;
     lookups := lookups w;
     upserts := upserts w;
     presented := presented w;
     rendered_current := true;
     earlier_upserts := earlier_upserts w |}.

Definition perform (e : Effect) (w : World) : World :=
  match e with
  | Navigate to =>
      {| currentUser := currentUser w;
         mounted := mounted w;
         lookup_in_flight := lookup_in_flight w;
         comp := comp w;
         navigations := (navigations w ++ [to])%list;
         console := console w;
         lookups := lookups w;
         upserts := upserts w;
         presented := presented w;
         rendered_current := rendered_current w;
         earlier_upserts := earlier_upserts w |}
  | ConsoleError message error =>
      {| currentUser := currentUser w;
         mounted := mounted w;
         lookup_in_flight := lookup_in_flight w;
         comp := comp w;
         navigations := navigations w;
         console := (console w ++ [(message, error)])%list;
         lookups := lookups w;
         upserts := upserts w;
         presented := presented w;
         rendered_current := rendered_current w;
         earlier_upserts := earlier_upserts w |}
  | SetUserInfos v => on_comp (setUserInfos (Some v)) w
  | SetFormData f => on_comp (setFormData (fun _ => f)) w
  | SetLoadingUser b => on_comp (setLoadingUser b) w
  end.

Definition perform_all (effects : list Effect) (w : World) : World :=
  fold_left (fun acc e => perform e acc) effects w.

Definition set_mounted (b : bool) (w : World) : World :=
  {| currentUser := currentUser w;
     mounted := b;
     lookup_in_flight := lookup_in_flight w;
     comp := comp w;
     navigations := navigations w;
     console := console w;
     lookups := lookups w;
     upserts := upserts w;
     presented := presented w;
     rendered_current := rendered_current w;
     earlier_upserts := earlier_upserts w |}.

Definition set_lookup_in_flight (b : bool) (w : World) : World :=
  {| currentUser := currentUser w;
     mounted := mounted w;
     lookup_in_flight := b;
     comp := comp w;
     navigations := navigations w;
     console := console w;
     lookups := lookups w;
     upserts := upserts w;
     presented := presented w;
     rendered_current := rendered_current w;
     earlier_upserts := earlier_upserts w |}.

Definition set_presented (key : Z) (w : World) : World :=
  {| currentUser := currentUser w;
     mounted := mounted w;
     lookup_in_flight := lookup_in_flight w;
     comp := comp w;
     navigations := navigations w;
     console := console w;
     lookups := lookups w;
     upserts := upserts w;
     presented := key;
     rendered_current := rendered_current w;
     earlier_upserts := earlier_upserts w |}.

Definition set_earlier_upserts (n : nat) (w : World) : World :=
  {| currentUser := currentUser w;
     mounted := mounted w;
     lookup_in_flight := lookup_in_flight w;
     comp := comp w;
     navigations := navigations w;
     console := console w;
     lookups := lookups w;
     upserts := upserts w;
     presented := presented w;
     rendered_current := rendered_current w;
     earlier_upserts := n |}.

(** The world when the component function runs for the first time. *)
Definition first_render (user : option User) : World :=
  {| currentUser := user;
     mounted := true;
     lookup_in_flight := false;
     comp := initialComponent;
     navigations := [];
     console := [];
     lookups := [];
     upserts := [];
     presented := step initialComponent;
     rendered_current := true;
     earlier_upserts := 0 |}.

(** The lookup leaves for the store. *)
Definition send_lookup (q : Query) (w : World) : World :=
  {| currentUser := currentUser w;
     mounted := mounted w;
     lookup_in_flight := true;
     comp := comp w;
     navigations := navigations w;
     console := console w;
     lookups := (lookups w ++ [q])%list;
     upserts := upserts w;
     presented := presented w;
     rendered_current := rendered_current w;
     earlier_upserts := earlier_upserts w |}.

(** The effect after the first render: [let mounted = true; guard();]. *)
Definition mount (user : option User) : World :=
  match guard_call true user with
  | (effects, None) => perform_all effects (first_render user)
  | (effects, Some (_, q)) =>
      send_lookup q (perform_all effects (first_render user))
  end.

(** The upserts in flight that the hook stops following when a new
    mutation starts. *)
Definition left_behind (w : World) : nat :=
  if isPending (updateUser (comp w))
  then S (earlier_upserts w)
  else earlier_upserts w.

(** [updateUser.mutate(payload)]: a new mutation, which the hook follows
    from now on, turns pending and runs [mutationFn].  A throw before the
    [await] fails it before the component hears of it.  Otherwise the
    upsert leaves, and the component has yet to be told of the pending
    state. *)
Definition mutate (payload : Payload) (w : World) : World :=
  match mutationFn_sync (currentUser w) payload with
  | inl error =>
      set_earlier_upserts (left_behind w)
        (on_comp (set_updateUser (Failed error)) w)
  | inr call =>
      {| currentUser := currentUser w;
         mounted := mounted w;
         lookup_in_flight := lookup_in_flight w;
         comp := set_updateUser Pending (comp w);
         navigations := navigations w;
         console := console w;
         lookups := lookups w;
         upserts := (upserts w ++ [call])%list;
         presented := presented w;
         rendered_current := false;
         earlier_upserts := left_behind w |}
  end.

Definition handleSubmit (w : World) : World :=
  mutate (handleSubmit_payload (formData (comp w))) w.

(** The mutation the hook follows, once its upsert settles: [onSuccess]
    runs only when [mutationFn] returned, and the component renders the
    outcome.  (The render comes a timer tick after the outcome; in
    between, the screen still shows the pending state, which refuses the
    one click that depends on it.) *)
Definition settle (o : UpsertOutcome) (w : World) : World :=
  match mutationFn_resume o with
  | inl error => on_comp (set_updateUser (Failed error)) w
  | inr _ => perform_all onSuccess (on_comp (set_updateUser Succeeded) w)
  end.

(** An earlier mutation, once its upsert settles: the hook does not hear
    of it, but [onSuccess] of the options runs all the same. *)
Definition settle_earlier (o : UpsertOutcome) (remaining : nat) (w : World)
  : World :=
  match mutationFn_resume o with
  | inl _ => set_earlier_upserts remaining w
  | inr _ => perform_all onSuccess (set_earlier_upserts remaining w)
  end.

(** The component as its last render saw it: the current state, except
    that a pending state not yet told shows as a result that is not
    pending (which one is immaterial, the render reads only
    [isPending]). *)
Definition rendered (w : World) : Component :=
  if negb (rendered_current w) && isPending (updateUser (comp w))
  then set_updateUser Idle (comp w)
  else comp w.

(** What is on screen for the user to act on. *)
Definition on_screen (w : World) : option Wizard :=
  if mounted w then
    match render (rendered w) with
    | WizardView v => Some v
    | Spinner => None
    end
  else None.

Inductive Event :=
| ClickBack
| ClickNext
| ClickFinish
| Edit (e : FieldEdit)
| LookupSettles (o : LookupOutcome)
| UpsertSettles (o : UpsertOutcome)
| Unmount
| ExitComplete
| MutationNotified
| EarlierUpsertSettles (o : UpsertOutcome).

(** One event on the page; [None] when the event cannot happen in [w] (the
    control is not on screen or is disabled, nothing is in flight, nothing
    is left to animate or to tell).  The buttons are those of the last
    render; the inputs and option buttons are those of the panel that
    AnimatePresence has mounted. *)
Definition handle (ev : Event) (w : World) : option World :=
  match ev with
  | ClickBack =>
      match on_screen w with
      | Some v =>
          if back_button v
          then Some (on_comp (setStep (fun prev => prev - 1)) w)
          else None
      | None => None
      end
  | ClickNext =>
      match on_screen w with
      | Some v =>
          match forward v with
          | NextButton false =>
              Some (on_comp (setStep (fun prev => prev + 1)) w)
          | _ => None
          end
      | None => None
      end
  | ClickFinish =>
      match on_screen w with
      | Some v =>
          match forward v with
          | FinishButton false _ => Some (handleSubmit w)
          | _ => None
          end
      | None => None
      end
  | Edit e =>
      match on_screen w with
      | Some v =>
          if offered (presented w) e
          then Some (on_comp (setFormData (updater e)) w)
          else None
      | None => None
      end
  | LookupSettles o =>
      if lookup_in_flight w
      then Some (perform_all (guard_resume (mounted w) o)
                   (set_lookup_in_flight false w))
      else None
  | UpsertSettles o =>
      if isPending (updateUser (comp w)) then Some (settle o w) else None
  | Unmount =>
      if mounted w then Some (set_mounted false w) else None
  | ExitComplete =>
      match on_screen w with
      | Some v =>
          if presented w =? step (comp w)
          then None
          else Some (set_presented (step (comp w)) w)
      | None => None
      end
  | MutationNotified =>
      if mounted w && negb (rendered_current w)
      then Some (on_comp (fun c => c) w)
      else None
  | EarlierUpsertSettles o =>
      match earlier_upserts w with
      | O => None
      | S remaining => Some (settle_earlier o remaining w)
      end
  end.

Fixpoint run (events : list Event) (w : World) : option World :=
  match events with
  | [] => Some w
  | ev :: rest =>
      match handle ev w with
      | Some w' => run rest w'
      | None => None
      end
  end.

(** The worlds a mounted page can be in. *)
Inductive reachable : World -> Prop :=
| reach_mount (user : option User) : reachable (mount user)
| reach_event (w w' : World) (ev : Event) :
    reachable w -> handle ev w = Some w' -> reachable w'.

(** ** Field bookkeeping for the frame properties *)

Inductive Field :=
| f_name
| f_household_size
| f_transportation_type
| f_has_solar_panels
| f_heating_type
| f_residence_size
| f_has_garden
| f_recycling_habit.

Inductive FieldValue :=
| Text (s : jsstring)
| Flag (b : bool).

Definition get (k : Field) (f : FormData) : FieldValue :=
  match k with
  | f_name => Text (name f)
  | f_household_size => Text (household_size f)
  | f_transportation_type => Text (transportation_type f)
  | f_has_solar_panels => Flag (has_solar_panels f)
  | f_heating_type => Text (heating_type f)
  | f_residence_size => Text (residence_size f)
  | f_has_garden => Flag (has_garden f)
  | f_recycling_habit => Text (recycling_habit f)
  end.

(** The key each edit writes. *)
Definition target (e : FieldEdit) : Field :=
  match e with
  | EditName _ => f_name
  | EditHouseholdSize _ => f_household_size
  | PickResidenceSize _ => f_residence_size
  | ToggleGarden => f_has_garden
  | PickTransportationType _ => f_transportation_type
  | PickHeatingType _ => f_heating_type
  | ToggleSolarPanels => f_has_solar_panels
  | PickRecyclingHabit _ => f_recycling_habit
  end.

(** The value each edit writes, given the previous form. *)
Definition written (e : FieldEdit) (prev : FormData) : FieldValue :=
  match e with
  | EditName v => Text v
  | EditHouseholdSize v => Text v
  | PickResidenceSize v => Text v
  | ToggleGarden => Flag (negb (has_garden prev))
  | PickTransportationType v => Text v
  | PickHeatingType v => Text v
  | ToggleSolarPanels => Flag (negb (has_solar_panels prev))
  | PickRecyclingHabit v => Text v
  end.

(** ** The per-step requirement, in the words of the specification *)

Definition required_fields_set (s : Z) (f : FormData) : Prop :=
  (s = 1 ->
   trim (name f) <> [] /\ household_size f <> [] /\ residence_size f <> [])
  /\ (s = 2 -> transportation_type f <> [])
  /\ (s = 3 -> heating_type f <> [])
  /\ (s = 4 -> recycling_habit f <> []).

(** ** Progress and option buttons *)

(** [progress = (step / totalSteps) * 100] *)
Definition progress (step : Z) : number :=
  mul (div (of_Z step) (of_Z totalSteps)) (of_Z 100).

(** The text before the percent sign: [progress.toFixed(0)]. *)
Definition progress_label (step : Z) : option jsstring :=
  toFixed0 (progress step).

(** The [variant] an option button is given: [current === option.value]
    picks "default", anything else "outline". *)
Definition variant (current value : jsstring) : string :=
  if eqb current value then "default" else "outline".

(** The buttons one [options.map] renders: key and variant, in table
    order. *)
Definition option_buttons (options : list jsstring) (current : jsstring)
  : list (jsstring * string) :=
  List.map (fun value => (value, variant current value)) options.

(** Keys of the buttons drawn as selected. *)
Definition highlighted (options : list jsstring) (current : jsstring)
  : list jsstring :=
  List.map fst
    (List.filter (fun b => String.eqb (snd b) "default")
       (option_buttons options current)).

(** ** What the page keeps true *)

(** The lookup the guard sends for [u]. *)
Definition guard_query (u : User) : Query :=
  {| q_from := "tb_user_infos";
     q_select := "onboarding_completed";
     q_eq := ("user_id", id u) |}.

(** Nothing has been done on the page yet. *)
Definition pristine (c : Component) : Prop :=
  step c = 1 /\ formData c = initialFormState /\ updateUser c = Idle.

(** The steps already passed have their choice set.  (The two text
    fields of step 1 give no such hold: the panel of a step stays live
    while it animates out, after the step has moved on.) *)
Definition steps_done (c : Component) : Prop :=
  (2 <= step c -> residence_size (formData c) <> [])
  /\ (3 <= step c -> transportation_type (formData c) <> [])
  /\ (4 <= step c -> heating_type (formData c) <> []).

(** A choice field is empty or holds a value of its option table. *)
Definition chosen_from (options : list jsstring) (v : jsstring) : Prop :=
  v = [] \/ mem v options = true.

Definition choices_in_tables (f : FormData) : Prop :=
  chosen_from residenceSizeOptions (residence_size f)
  /\ chosen_from transportOptions (transportation_type f)
  /\ chosen_from heatingOptions (heating_type f)
  /\ chosen_from recyclingOptions (recycling_habit f).

(** An upsert that is well formed for [user]: addressed to the user's
    row, with a trimmed name, a value of the matching table in each choice
    field, and both flags set. *)
Definition complete_call (user : option User) (call : UpsertCall) : Prop :=
  (exists u, user = Some u /\ user_id (u_row call) = id u)
  /\ u_from call = "tb_user_infos"
  /\ u_onConflict call = "user_id"
  /\ trim (p_name (fields (u_row call))) = p_name (fields (u_row call))
  /\ mem (p_residence_size (fields (u_row call))) residenceSizeOptions = true
  /\ mem (p_transportation_type (fields (u_row call))) transportOptions = true
  /\ mem (p_heating_type (fields (u_row call))) heatingOptions = true
  /\ mem (p_recycling_habit (fields (u_row call))) recyclingOptions = true
  /\ p_onboarding_completed (fields (u_row call)) = true
  /\ p_has_seen_intro (fields (u_row call)) = true.

Definition page_invariant (w : World) : Prop :=
  (loadingUser (comp w) = true -> pristine (comp w) /\ upserts w = [])
  /\ steps_done (comp w)
  /\ choices_in_tables (formData (comp w))
  /\ Forall (complete_call (currentUser w)) (upserts w)
  /\ lookups w =
     match currentUser w with
     | Some u => [guard_query u]
     | None => []
     end.

(** A decimal digit, and the number a run of digits writes. *)
Definition is_digit (c : N) : bool := (N.leb 48 c && N.leb c 57)%N.

Fixpoint digits_value (acc : Z) (s : jsstring) : Z :=
  match s with
  | [] => acc
  | c :: rest => digits_value (acc * 10 + (Z.of_N c - 48)) rest
  end.

(** ** A session used in the examples *)

Definition ana : User := {| id := lit "user-1" |}.

Definition no_row : LookupOutcome :=
  LookupFulfilled None (Some {| code := lit "PGRST116" |}).

Definition fill_in (household : string) : list Event :=
  [ LookupSettles no_row;
    Edit (EditName (lit "Ana"));
    Edit (EditHouseholdSize (lit household));
    Edit (PickResidenceSize (lit "medium"));
    ClickNext;
    ExitComplete;
    Edit (PickTransportationType (lit "bicycle"));
    ClickNext;
    ExitComplete;
    Edit (PickHeatingType (lit "solar"));
    ClickNext;
    ExitComplete;
    Edit (PickRecyclingHabit (lit "always")) ].

(** The session of the specification's example, arrived on step 4 with
    every field set. *)
Definition example_world : World :=
  Eval vm_compute in
    match run (fill_in "3") (mount (Some ana)) with
    | Some w => w
    | None => first_render None
    end.

(** The same session right after the click on Finish. *)
Definition saving_world : World :=
  Eval vm_compute in handleSubmit example_world.

(** The session arrived on step 2, its panel on screen. *)
Definition step_two_world : World :=
  Eval vm_compute in
    match run [ LookupSettles no_row;
                Edit (EditName (lit "Ana"));
                Edit (EditHouseholdSize (lit "3"));
                Edit (PickResidenceSize (lit "medium"));
                ClickNext;
                ExitComplete ] (mount (Some ana)) with
    | Some w => w
    | None => first_render None
    end.

(** * Properties *)

(** ** Basic facts *)

Lemma truthy_iff (s : jsstring) : truthy s = true <-> s <> [].
Proof.
  destruct s as [|c rest]; simpl; split; intro H;
    try reflexivity; try discriminate; congruence.
Qed.

Lemma perform_step (e : Effect) (w : World) :
  step (comp (perform e w)) = step (comp w).
Proof. destruct e; reflexivity. Qed.

Lemma perform_all_step (effects : list Effect) (w : World) :
  step (comp (perform_all effects w)) = step (comp w).
Proof.
  revert w; induction effects as [|e rest IH]; intro w; simpl.
  - reflexivity.
  - unfold perform_all in IH. rewrite IH. apply perform_step.
Qed.

Lemma mount_step (user : option User) : step (comp (mount user)) = 1.
Proof. destruct user; reflexivity. Qed.

(** The last render differs from the current state in the mutation
    only. *)
Lemma rendered_state (w : World) :
  step (rendered w) = step (comp w)
  /\ formData (rendered w) = formData (comp w)
  /\ loadingUser (rendered w) = loadingUser (comp w)
  /\ isPending (updateUser (rendered w))
     = rendered_current w && isPending (updateUser (comp w)).
Proof.
  unfold rendered.
  destruct (rendered_current w), (isPending (updateUser (comp w))) eqn:E;
    simpl; rewrite ?E; repeat split.
Qed.

(** The wizard of the last render, spelled out. *)
Lemma wizard_rendered (w : World) :
  wizard (rendered w)
  = {| panel := step (comp w);
       back_button := 1 <? step (comp w);
       forward :=
         if step (comp w) <? totalSteps
         then NextButton (nextDisabled (step (comp w)) (formData (comp w)))
         else FinishButton
                (rendered_current w && isPending (updateUser (comp w))
                 || nextDisabled (step (comp w)) (formData (comp w)))
                (rendered_current w && isPending (updateUser (comp w))) |}.
Proof.
  destruct (rendered_state w) as (A & B & _ & D).
  unfold wizard. rewrite A, B, D. reflexivity.
Qed.

Lemma on_screen_inv (w : World) (v : Wizard) :
  on_screen w = Some v ->
  mounted w = true
  /\ loadingUser (comp w) = false
  /\ v = wizard (rendered w).
Proof.
  destruct (rendered_state w) as (_ & _ & C & _).
  unfold on_screen, render. rewrite C.
  destruct (mounted w); [|discriminate].
  destruct (loadingUser (comp w)); [discriminate|].
  intro H; injection H as <-. repeat split.
Qed.

Lemma on_screen_shown (w : World) :
  mounted w = true ->
  loadingUser (comp w) = false ->
  on_screen w = Some (wizard (rendered w)).
Proof.
  intros Hm Hl. destruct (rendered_state w) as (_ & _ & C & _).
  unfold on_screen, render. rewrite Hm, C, Hl. reflexivity.
Qed.

(** *** What each event needs and does *)

Lemma back_inv (w w' : World) :
  handle ClickBack w = Some w' ->
  w' = on_comp (setStep (fun prev => prev - 1)) w
  /\ mounted w = true
  /\ loadingUser (comp w) = false
  /\ 1 < step (comp w).
Proof.
  simpl. destruct (on_screen w) as [v|] eqn:E; [|discriminate].
  destruct (on_screen_inv w v E) as (Hm & Hl & ->).
  rewrite wizard_rendered. simpl.
  destruct (1 <? step (comp w)) eqn:E1; [|discriminate].
  intro H; injection H as <-. apply Z.ltb_lt in E1. repeat split; assumption.
Qed.

Lemma next_inv (w w' : World) :
  handle ClickNext w = Some w' ->
  w' = on_comp (setStep (fun prev => prev + 1)) w
  /\ mounted w = true
  /\ loadingUser (comp w) = false
  /\ step (comp w) < 4
  /\ nextDisabled (step (comp w)) (formData (comp w)) = false.
Proof.
  simpl. destruct (on_screen w) as [v|] eqn:E; [|discriminate].
  destruct (on_screen_inv w v E) as (Hm & Hl & ->).
  rewrite wizard_rendered. unfold totalSteps. simpl.
  destruct (step (comp w) <? 4) eqn:E1.
  - destruct (nextDisabled (step (comp w)) (formData (comp w)));
      [discriminate|].
    intro H; injection H as <-. apply Z.ltb_lt in E1.
    repeat split; assumption.
  - discriminate.
Qed.

Lemma finish_click_inv (w w1 : World) :
  handle ClickFinish w = Some w1 ->
  w1 = handleSubmit w
  /\ mounted w = true
  /\ loadingUser (comp w) = false
  /\ (step (comp w) <? totalSteps) = false
  /\ rendered_current w && isPending (updateUser (comp w)) = false
  /\ nextDisabled (step (comp w)) (formData (comp w)) = false.
Proof.
  simpl. destruct (on_screen w) as [v|] eqn:E; [|discriminate].
  destruct (on_screen_inv w v E) as (Hm & Hl & ->).
  rewrite wizard_rendered. simpl.
  destruct (step (comp w) <? totalSteps); [discriminate|].
  destruct (rendered_current w && isPending (updateUser (comp w)));
    [discriminate|].
  destruct (nextDisabled (step (comp w)) (formData (comp w)));
    [discriminate|].
  simpl. intro H; injection H as <-. repeat split; assumption.
Qed.

Lemma edit_offered_inv (e : FieldEdit) (w w' : World) :
  handle (Edit e) w = Some w' ->
  w' = on_comp (setFormData (updater e)) w
  /\ mounted w = true
  /\ loadingUser (comp w) = false
  /\ offered (presented w) e = true.
Proof.
  simpl. destruct (on_screen w) as [v|] eqn:E; [|discriminate].
  destruct (on_screen_inv w v E) as (Hm & Hl & _).
  destruct (offered (presented w) e); [|discriminate].
  intro H; injection H as <-. repeat split; assumption.
Qed.

Lemma lookup_settles_inv (o : LookupOutcome) (w w' : World) :
  handle (LookupSettles o) w = Some w' ->
  lookup_in_flight w = true
  /\ w' = perform_all (guard_resume (mounted w) o)
            (set_lookup_in_flight false w).
Proof.
  simpl. destruct (lookup_in_flight w); [|discriminate].
  intro H; injection H as <-. split; reflexivity.
Qed.

Lemma upsert_settles_inv (o : UpsertOutcome) (w w' : World) :
  handle (UpsertSettles o) w = Some w' ->
  isPending (updateUser (comp w)) = true /\ w' = settle o w.
Proof.
  simpl. destruct (isPending (updateUser (comp w))); [|discriminate].
  intro H; injection H as <-. split; reflexivity.
Qed.

Lemma unmount_inv (w w' : World) :
  handle Unmount w = Some w' ->
  mounted w = true /\ w' = set_mounted false w.
Proof.
  simpl. destruct (mounted w); [|discriminate].
  intro H; injection H as <-. split; reflexivity.
Qed.

Lemma exit_complete_inv (w w' : World) :
  handle ExitComplete w = Some w' ->
  w' = set_presented (step (comp w)) w
  /\ mounted w = true
  /\ loadingUser (comp w) = false.
Proof.
  simpl. destruct (on_screen w) as [v|] eqn:E; [|discriminate].
  destruct (on_screen_inv w v E) as (Hm & Hl & _).
  destruct (presented w =? step (comp w)); [discriminate|].
  intro H; injection H as <-. repeat split; assumption.
Qed.

Lemma notified_inv (w w' : World) :
  handle MutationNotified w = Some w' ->
  w' = on_comp (fun c => c) w /\ mounted w = true.
Proof.
  simpl. destruct (mounted w); [|discriminate].
  destruct (rendered_current w); [discriminate|]. simpl.
  intro H; injection H as <-. split; reflexivity.
Qed.

Lemma earlier_settles_inv (o : UpsertOutcome) (w w' : World) :
  handle (EarlierUpsertSettles o) w = Some w' ->
  exists remaining,
    earlier_upserts w = S remaining /\ w' = settle_earlier o remaining w.
Proof.
  simpl. destruct (earlier_upserts w) as [|n]; [discriminate|].
  intro H; injection H as <-. exists n. split; reflexivity.
Qed.

Lemma settle_earlier_comp (o : UpsertOutcome) (n : nat) (w : World) :
  comp (settle_earlier o n w) = comp w.
Proof. unfold settle_earlier. destruct (mutationFn_resume o); reflexivity. Qed.

(** How each event moves the step. *)
Lemma handle_step (ev : Event) (w w' : World) :
  handle ev w = Some w' ->
  match ev with
  | ClickBack => 1 < step (comp w) /\ step (comp w') = step (comp w) - 1
  | ClickNext =>
      step (comp w) < totalSteps /\ step (comp w') = step (comp w) + 1
  | _ => step (comp w') = step (comp w)
  end.
Proof.
  destruct ev; intro H.
  - destruct (back_inv w w' H) as (-> & _ & _ & Hs).
    split; [exact Hs | reflexivity].
  - destruct (next_inv w w' H) as (-> & _ & _ & Hs & _).
    split; [exact Hs | reflexivity].
  - destruct (finish_click_inv w w' H) as (-> & _).
    unfold handleSubmit, mutate.
    destruct (mutationFn_sync _ _); reflexivity.
  - destruct (edit_offered_inv e w w' H) as (-> & _). reflexivity.
  - destruct (lookup_settles_inv o w w' H) as (_ & ->).
    rewrite perform_all_step. reflexivity.
  - destruct (upsert_settles_inv o w w' H) as (_ & ->).
    unfold settle. destruct (mutationFn_resume o); [reflexivity|].
    rewrite perform_all_step. reflexivity.
  - destruct (unmount_inv w w' H) as (_ & ->). reflexivity.
  - destruct (exit_complete_inv w w' H) as (-> & _). reflexivity.
  - destruct (notified_inv w w' H) as (-> & _). reflexivity.
  - destruct (earlier_settles_inv o w w' H) as (n & _ & ->).
    rewrite settle_earlier_comp. reflexivity.
Qed.

Lemma reachable_step_range (w : World) :
  reachable w -> 1 <= step (comp w) <= 4.
Proof.
  induction 1 as [user | w w' ev Hw IH Hev].
  - rewrite mount_step. lia.
  - apply handle_step in Hev. unfold totalSteps in Hev.
    destruct ev; lia.
Qed.

(** ** The gate of each step *)

Ltac use_requirement H :=
  let A := fresh in let B := fresh in let C := fresh in let D := fresh in
  destruct H as (A & B & C & D);
  try (destruct (A eq_refl) as (? & ? & ?));
  try specialize (B eq_refl); try specialize (C eq_refl);
  try specialize (D eq_refl); congruence.

(** [nextDisabled] is false exactly when every field the step requires is
    set. *)
Lemma nextDisabled_false_spec (s : Z) (f : FormData) :
  1 <= s <= 4 ->
  (nextDisabled s f = false <-> required_fields_set s f).
Proof.
  intro Hs.
  assert (s = 1 \/ s = 2 \/ s = 3 \/ s = 4) as [-> | [-> | [-> | ->]]] by lia;
    unfold required_fields_set, nextDisabled.
  - destruct (trim (name f)), (household_size f), (residence_size f);
      simpl; split; intro H; try reflexivity; try discriminate;
      try use_requirement H.
    repeat split; intros; try lia; discriminate.
  - destruct (transportation_type f); simpl; split; intro H;
      try reflexivity; try discriminate; try use_requirement H.
    repeat split; intros; try lia; discriminate.
  - destruct (heating_type f); simpl; split; intro H;
      try reflexivity; try discriminate; try use_requirement H.
    repeat split; intros; try lia; discriminate.
  - destruct (recycling_habit f); simpl; split; intro H;
      try reflexivity; try discriminate; try use_requirement H.
    repeat split; intros; try lia; discriminate.
Qed.

Lemma nextDisabled_spec (s : Z) (f : FormData) :
  1 <= s <= 4 ->
  (nextDisabled s f = true <-> ~ required_fields_set s f).
Proof.
  intro Hs. pose proof (nextDisabled_false_spec s f Hs) as [H1 H2].
  destruct (nextDisabled s f); split; intro H.
  - intro R. specialize (H2 R). discriminate.
  - reflexivity.
  - discriminate.
  - exfalso. apply H, H1. reflexivity.
Qed.



(** On the steps that show Next, the claim holds as written. *)
Lemma next_disabled_iff (c : Component) :
  1 <= step c < 4 ->
  forward (wizard c) = NextButton (nextDisabled (step c) (formData c))
  /\ (nextDisabled (step c) (formData c) = true <->
      ~ required_fields_set (step c) (formData c)).
Proof.
  intro Hs. split.
  - unfold wizard, totalSteps; simpl.
    destruct (step c <? 4) eqn:E; [reflexivity|].
    apply Z.ltb_ge in E. lia.
  - apply nextDisabled_spec. lia.
Qed.


(** ** Submission *)



Lemma example_world_reached :
  run (fill_in "3") (mount (Some ana)) = Some example_world.
Proof. vm_compute. reflexivity. Qed.


(** ** Navigation between the steps *)

Lemma run_reachable (events : list Event) (w w' : World) :
  reachable w -> run events w = Some w' -> reachable w'.
Proof.
  revert w; induction events as [|ev rest IH]; intros w Hw; simpl.
  - intro H; injection H as <-. exact Hw.
  - destruct (handle ev w) as [w1|] eqn:E; [|discriminate].
    apply IH. exact (reach_event w w1 ev Hw E).
Qed.

Lemma example_world_reachable : reachable example_world.
Proof.
  apply (run_reachable (fill_in "3") (mount (Some ana))).
  - apply reach_mount.
  - apply example_world_reached.
Qed.

(** C3: the step starts at 1 and stays within 1..4 whatever happens to the
    page.  With the wizard on screen, Back is there exactly on steps 2 to 4
    and takes the step down by one; Next takes it up by one and is shown
    only below step 4, where Finish stands in its place; no other event
    moves the step. *)
Theorem step_navigation (w : World) :
  reachable w ->
  (forall user, step (comp (mount user)) = 1)
  /\ 1 <= step (comp w) <= 4
  /\ (forall v, on_screen w = Some v ->
        (back_button v = true <-> 2 <= step (comp w))
        /\ (handle ClickBack w = None <-> step (comp w) = 1)
        /\ (step (comp w) < 4 -> exists d, forward v = NextButton d)
        /\ (step (comp w) = 4 ->
            handle ClickNext w = None
            /\ exists d s, forward v = FinishButton d s))
  /\ (forall w', handle ClickBack w = Some w' ->
        step (comp w') = step (comp w) - 1)
  /\ (forall w', handle ClickNext w = Some w' ->
        step (comp w') = step (comp w) + 1)
  /\ (forall ev w', handle ev w = Some w' ->
        ev <> ClickBack -> ev <> ClickNext ->
        step (comp w') = step (comp w)).
Proof.
  intro Hw. pose proof (reachable_step_range w Hw) as Hr.
  split; [exact mount_step|]. split; [exact Hr|]. split; [|split; [|split]].
  - intros v Hv. destruct (on_screen_inv w v Hv) as (_ & _ & Ev).
    rewrite wizard_rendered in Ev. unfold totalSteps in Ev.
    assert (Hv' := Hv). rewrite Ev in Hv'. subst v. simpl.
    split; [|split; [|split]].
    + split; intro H; [apply Z.ltb_lt in H | apply Z.ltb_lt]; lia.
    + rewrite Hv'. simpl.
      destruct (1 <? step (comp w)) eqn:E.
      * apply Z.ltb_lt in E. split; [discriminate | lia].
      * apply Z.ltb_ge in E. split; [lia | reflexivity].
    + intro H. apply Z.ltb_lt in H. rewrite H. eexists. reflexivity.
    + intro H. rewrite Hv'. simpl. rewrite H. simpl.
      split; [reflexivity|]. eexists. eexists. reflexivity.
  - intros w' H. apply handle_step in H. tauto.
  - intros w' H. apply handle_step in H. tauto.
  - intros ev w' H Hb Hn. apply handle_step in H.
    destruct ev; try assumption; congruence.
Qed.

Lemma step_navigation_witness :
  reachable example_world
  /\ 1 <= step (comp example_world) <= 4
  /\ forall w', handle ClickBack example_world = Some w' ->
       step (comp w') = step (comp example_world) - 1.
Proof.
  pose proof (step_navigation example_world example_world_reachable)
    as (_ & Hr & _ & Hb & _).
  split; [exact example_world_reachable|]. split; [exact Hr | exact Hb].
Defined.

(** ** The guard *)

Lemma perform_all_lookup_in_flight (effects : list Effect) (w : World) :
  lookup_in_flight (perform_all effects w) = lookup_in_flight w.
Proof.
  revert w; induction effects as [|e rest IH]; intro w; simpl.
  - reflexivity.
  - unfold perform_all in IH. rewrite IH. destruct e; reflexivity.
Qed.

(** An event that leaves a lookup in flight found it in flight and did not
    touch the loading flag. *)
Lemma handle_keeps_loading (ev : Event) (w w' : World) :
  handle ev w = Some w' ->
  lookup_in_flight w' = true ->
  lookup_in_flight w = true /\ loadingUser (comp w') = loadingUser (comp w).
Proof.
  destruct ev; intro H.
  - destruct (back_inv w w' H) as (-> & _). simpl. auto.
  - destruct (next_inv w w' H) as (-> & _). simpl. auto.
  - destruct (finish_click_inv w w' H) as (-> & _).
    unfold handleSubmit, mutate.
    destruct (mutationFn_sync _ _); simpl; auto.
  - destruct (edit_offered_inv e w w' H) as (-> & _). simpl. auto.
  - destruct (lookup_settles_inv o w w' H) as (_ & ->).
    rewrite perform_all_lookup_in_flight. simpl. discriminate.
  - destruct (upsert_settles_inv o w w' H) as (_ & ->).
    unfold settle. destruct (mutationFn_resume o); simpl; auto.
  - destruct (unmount_inv w w' H) as (_ & ->). simpl. auto.
  - destruct (exit_complete_inv w w' H) as (-> & _). simpl. auto.
  - destruct (notified_inv w w' H) as (-> & _). simpl. auto.
  - destruct (earlier_settles_inv o w w' H) as (n & _ & ->).
    unfold settle_earlier. destruct (mutationFn_resume o); simpl; auto.
Qed.

(** While the lookup of the guard is in flight the loading flag is up. *)
Lemma loading_while_lookup (w : World) :
  reachable w -> lookup_in_flight w = true -> loadingUser (comp w) = true.
Proof.
  induction 1 as [user | w w' ev Hw IH Hev]; intro Hf.
  - destruct user; [reflexivity | discriminate].
  - destruct (handle_keeps_loading ev w w' Hev Hf) as [Hf' ->]. auto.
Qed.

(** C4: with no authenticated user the guard, called by the effect with
    the flag up, navigates to Login and returns without querying the store
    or setting the form (its [finally] then lowers the loading flag).  The
    first render, before the effect, shows the spinner, and so does every
    render while a guard is still waiting on its lookup. *)
Theorem guard_without_user :
  render (comp (first_render None)) = Spinner
  /\ guard_call true None
     = ([Navigate (createPageUrl Login); SetLoadingUser false], None)
  /\ navigations (mount None) = [createPageUrl Login]
  /\ lookups (mount None) = []
  /\ lookup_in_flight (mount None) = false
  /\ userInfos (comp (mount None)) = None
  /\ formData (comp (mount None)) = initialFormState
  /\ (forall w,
        reachable w -> lookup_in_flight w = true ->
        render (comp w) = Spinner).
Proof.
  repeat split. intros w Hw Hf.
  unfold render. rewrite (loading_while_lookup w Hw Hf). reflexivity.
Qed.

Lemma guard_without_user_witness :
  reachable (mount (Some ana))
  /\ lookup_in_flight (mount (Some ana)) = true
  /\ render (comp (mount (Some ana))) = Spinner
  /\ navigations (mount None) = [createPageUrl Login].
Proof.
  pose proof guard_without_user as (_ & _ & Hn & _ & _ & _ & _ & Hs).
  split; [apply reach_mount|]. split; [reflexivity|].
  split; [exact (Hs (mount (Some ana)) (reach_mount (Some ana)) eq_refl)
         | exact Hn].
Defined.

Lemma eqb_eq (a b : jsstring) : eqb a b = true <-> a = b.
Proof.
  unfold eqb. destruct (list_eq_dec N.eq_dec a b); split; intro H;
    try reflexivity; try assumption; try discriminate; contradiction.
Qed.

Lemma fatal_error_other_code (e : StoreError) :
  code e <> lit "PGRST116" -> fatal_error (Some e) = Some e.
Proof.
  intro H. unfold fatal_error.
  destruct (eqb (code e) (lit "PGRST116")) eqn:E; [|reflexivity].
  apply eqb_eq in E. contradiction.
Qed.

Lemma fatal_error_no_row (e : StoreError) :
  code e = lit "PGRST116" -> fatal_error (Some e) = None.
Proof.
  intro H. unfold fatal_error.
  destruct (eqb (code e) (lit "PGRST116")) eqn:E; [reflexivity|].
  apply eqb_eq in H. congruence.
Qed.

(** C5, as amended: when the lookup of a guard comes back with an error
    whose code is not PGRST116 (or is rejected), the error is logged and,
    if the page is still mounted, the guard navigates to Login; nothing is
    written to the form.  A PGRST116 answer with no row is not an error:
    a mounted page logs nothing, does not navigate, resets the form and
    lowers the loading flag, which puts the wizard on screen. *)
Theorem lookup_failure_handling (w : World) :
  lookup_in_flight w = true ->
  (forall data e,
      code e <> lit "PGRST116" ->
      exists w',
        handle (LookupSettles (LookupFulfilled data (Some e))) w = Some w'
        /\ console w' =
           (console w
            ++ [("Erro ao verificar onboarding:", StoreFailure e)])%list
        /\ navigations w' =
           (navigations w
            ++ (if mounted w then [createPageUrl Login] else []))%list
        /\ formData (comp w') = formData (comp w)
        /\ userInfos (comp w') = userInfos (comp w))
  /\ (forall reason,
        exists w',
          handle (LookupSettles (LookupRejected reason)) w = Some w'
          /\ console w' =
             (console w ++ [("Erro ao verificar onboarding:", reason)])%list
          /\ navigations w' =
             (navigations w
              ++ (if mounted w then [createPageUrl Login] else []))%list)
  /\ (forall e,
        code e = lit "PGRST116" ->
        mounted w = true ->
        exists w',
          handle (LookupSettles (LookupFulfilled None (Some e))) w = Some w'
          /\ console w' = console w
          /\ navigations w' = navigations w
          /\ formData (comp w') = initialFormState
          /\ on_screen w' = Some (wizard (comp w'))).
Proof.
  intro Hf. split; [|split].
  - intros data e He. eexists. split.
    + simpl. rewrite Hf. reflexivity.
    + unfold guard_resume, guard_try_resume.
      rewrite (fatal_error_other_code e He).
      destruct (mounted w); simpl; repeat split;
        rewrite ?app_nil_r; reflexivity.
  - intro reason. eexists. split.
    + simpl. rewrite Hf. reflexivity.
    + unfold guard_resume, guard_try_resume.
      destruct (mounted w); simpl; repeat split;
        rewrite ?app_nil_r; reflexivity.
  - intros e He Hm. eexists. split.
    + simpl. rewrite Hf. reflexivity.
    + unfold guard_resume, guard_try_resume.
      rewrite (fatal_error_no_row e He), Hm. simpl. repeat split.
      unfold on_screen. simpl. rewrite Hm. reflexivity.
Qed.

Lemma lookup_failure_handling_witness :
  lookup_in_flight (mount (Some ana)) = true
  /\ exists w',
       handle (LookupSettles
                 (LookupFulfilled None (Some {| code := lit "500" |})))
         (mount (Some ana)) = Some w'
       /\ navigations w' = [createPageUrl Login].
Proof.
  split; [reflexivity|].
  destruct (lookup_failure_handling (mount (Some ana)) eq_refl)
    as (H & _ & _).
  destruct (H None {| code := lit "500" |}) as (w' & Hh & _ & Hn & _).
  - vm_compute. discriminate.
  - exists w'. split; [exact Hh | exact Hn].
Defined.

(** C5 as written fails once the page has unmounted: the failed lookup is
    logged, but no navigation to Login follows. *)
Lemma lookup_failure_after_unmount :
  exists w,
    run [Unmount;
         LookupSettles (LookupFulfilled None (Some {| code := lit "500" |}))]
      (mount (Some ana)) = Some w
    /\ console w =
       [("Erro ao verificar onboarding:",
         StoreFailure {| code := lit "500" |})]
    /\ ~ In (createPageUrl Login) (navigations w).
Proof.
  eexists. split; [vm_compute; reflexivity|].
  split; [reflexivity|]. simpl. tauto.
Qed.

(** C6, as amended: when the lookup brings back a row that marks
    onboarding complete, the guard navigates to Dashboard first, and does
    so while the spinner is what the page renders: no wizard is shown up
    to the redirect.  It writes neither the form nor the stored infos, and
    only then lowers the loading flag if still mounted. *)
Theorem guard_already_completed
  (w : World) (data : option InfoRow) (error : option StoreError) :
  reachable w ->
  lookup_in_flight w = true ->
  fatal_error error = None ->
  completed_flag data = true ->
  render (comp w) = Spinner
  /\ guard_resume (mounted w) (LookupFulfilled data error)
     = Navigate (createPageUrl Dashboard)
       :: (if mounted w then [SetLoadingUser false] else [])
  /\ exists w',
       handle (LookupSettles (LookupFulfilled data error)) w = Some w'
       /\ navigations w' = (navigations w ++ [createPageUrl Dashboard])%list
       /\ console w' = console w
       /\ formData (comp w') = formData (comp w)
       /\ userInfos (comp w') = userInfos (comp w).
Proof.
  intros Hw Hf He Hc.
  assert (guard_resume (mounted w) (LookupFulfilled data error)
          = Navigate (createPageUrl Dashboard)
            :: (if mounted w then [SetLoadingUser false] else [])) as Hg.
  { unfold guard_resume, guard_try_resume. rewrite He, Hc. reflexivity. }
  split; [|split].
  - unfold render. rewrite (loading_while_lookup w Hw Hf). reflexivity.
  - exact Hg.
  - eexists. split.
    + simpl. rewrite Hf. reflexivity.
    + rewrite Hg. destruct (mounted w); simpl; repeat split.
Qed.

Lemma guard_already_completed_witness :
  let done := Some {| onboarding_completed := Some true |} in
  reachable (mount (Some ana))
  /\ render (comp (mount (Some ana))) = Spinner
  /\ exists w',
       handle (LookupSettles (LookupFulfilled done None)) (mount (Some ana))
       = Some w'
       /\ navigations w' = [createPageUrl Dashboard].
Proof.
  intro done.
  destruct (guard_already_completed (mount (Some ana)) done None
              (reach_mount (Some ana)) eq_refl eq_refl eq_refl)
    as (Hs & _ & w' & Hh & Hn & _).
  split; [apply reach_mount|]. split; [exact Hs|].
  exists w'. split; [exact Hh | exact Hn].
Defined.

(** C6 as written fails on a page that stays mounted: after the
    redirect the [finally] block lowers the loading flag, and the
    component renders the wizard. *)
Lemma wizard_after_dashboard_redirect :
  exists w,
    run [LookupSettles
           (LookupFulfilled
              (Some {| onboarding_completed := Some true |}) None)]
      (mount (Some ana)) = Some w
    /\ navigations w = [createPageUrl Dashboard]
    /\ render (comp w) <> Spinner
    /\ on_screen w =
       Some {| panel := 1; back_button := false; forward := NextButton true |}.
Proof.
  eexists. split; [vm_compute; reflexivity|].
  split; [reflexivity|]. split; [discriminate | reflexivity].
Qed.

(** ** Failure of the submission *)


Lemma perform_all_updateUser (effects : list Effect) (w : World) :
  updateUser (comp (perform_all effects w)) = updateUser (comp w).
Proof.
  revert w; induction effects as [|e rest IH]; intro w; simpl.
  - reflexivity.
  - unfold perform_all in IH. rewrite IH. destruct e; reflexivity.
Qed.





Lemma saving_world_reachable : reachable saving_world.
Proof.
  apply (reach_event example_world saving_world ClickFinish).
  - apply example_world_reachable.
  - reflexivity.
Qed.



(** A successful upsert is the only way to Dashboard from the wizard. *)
Lemma successful_submission (w : World) :
  isPending (updateUser (comp w)) = true ->
  exists w',
    handle (UpsertSettles (UpsertFulfilled None)) w = Some w'
    /\ navigations w' = (navigations w ++ [createPageUrl Dashboard])%list.
Proof.
  intro Hp. eexists. split.
  - simpl. rewrite Hp. reflexivity.
  - reflexivity.
Qed.

(** ** Unmounting while the guard waits *)

(** C8 does not hold of the code: the flag is read before the [await], in
    [catch] and in [finally], but not on the path after the [await].  On a
    page unmounted during the lookup, a row marked complete still
    navigates to Dashboard, and any other answer still calls
    [setUserInfos] and [setFormData]. *)
Theorem stale_guard_result_acts :
  guard_resume false
    (LookupFulfilled (Some {| onboarding_completed := Some true |}) None)
  = [Navigate (createPageUrl Dashboard)]
  /\ guard_resume false no_row
     = [SetUserInfos []; SetFormData initialFormState]
  /\ exists w,
       run [Unmount;
            LookupSettles
              (LookupFulfilled
                 (Some {| onboarding_completed := Some true |}) None)]
         (mount (Some ana)) = Some w
       /\ mounted w = false
       /\ navigations w = [createPageUrl Dashboard].
Proof.
  split; [reflexivity|]. split; [reflexivity|].
  eexists. split; [vm_compute; reflexivity|]. split; reflexivity.
Qed.

(** What the flag does suppress after an unmount: the navigation to Login
    in [catch] and the lowering of the loading flag in [finally]. *)
Lemma unmounted_guard_suppresses (o : LookupOutcome) :
  ~ In (Navigate (createPageUrl Login)) (guard_resume false o)
  /\ ~ In (SetLoadingUser false) (guard_resume false o).
Proof.
  unfold guard_resume, guard_try_resume.
  destruct o as [data error | reason]; simpl.
  - destruct (fatal_error error); simpl.
    + split; intros [H | H]; try discriminate; assumption.
    + destruct (completed_flag data); simpl;
        split; intro H; decompose [or] H; try discriminate; assumption.
  - split; intros [H | H]; try discriminate; assumption.
Qed.

(** ** The household size that is sent *)

(** C9 does not hold of the code: the gate of step 1 only asks for a
    household size that is not the empty string, so "0" typed in the number
    box goes through and the upsert carries the number 0. *)
Theorem household_size_zero_is_sent :
  nextDisabled 1
    {| name := lit "Ana";
       household_size := lit "0";
       transportation_type := [];
       has_solar_panels := false;
       heating_type := [];
       residence_size := lit "medium";
       has_garden := false;
       recycling_habit := [] |} = false
  /\ exists w,
       run (fill_in "0" ++ [ClickFinish])%list (mount (Some ana)) = Some w
       /\ List.map (fun call => p_household_size (fields (u_row call)))
            (upserts w) = [Finite false 0]
       /\ is_positive_integer (Finite false 0) = false.
Proof.
  split; [reflexivity|].
  eexists. split; [vm_compute; reflexivity|]. split; reflexivity.
Qed.

(** Other entries of the number box that pass the gate. *)
Lemma household_size_other_values :
  List.map (fun s => is_positive_integer (Number (lit s)))
    ["3"; "0"; "-2"; "2.5"; "1e2"]
  = [true; false; false; false; true]
  /\ Number (lit "-2") = Finite true 2
  /\ Number (lit "2.5") = Finite false (5 # 2).
Proof. repeat split; vm_compute; reflexivity. Qed.

(** ** Frame of the field edits *)

Lemma updater_frame (e : FieldEdit) (prev : FormData) (k : Field) :
  k <> target e -> get k (updater e prev) = get k prev.
Proof. destruct e, k; simpl; intro H; try reflexivity; congruence. Qed.

Lemma updater_writes (e : FieldEdit) (prev : FormData) :
  get (target e) (updater e prev) = written e prev.
Proof. destruct e; reflexivity. Qed.

Lemma edit_inv (e : FieldEdit) (w w' : World) :
  handle (Edit e) w = Some w' ->
  w' = on_comp (setFormData (updater e)) w.
Proof.
  simpl. destruct (on_screen w); [|discriminate].
  destruct (offered _ _); [|discriminate].
  intro H; injection H as <-. reflexivity.
Qed.

(** C10: an edit of the form writes its own field and nothing else: every
    other field of the form keeps its value, and so do the step, the
    loading flag, the stored infos and the mutation; the two toggles write
    the negation of their own field. *)
Theorem edit_changes_only_target
  (e : FieldEdit) (w w' : World) (k : Field) :
  handle (Edit e) w = Some w' ->
  k <> target e ->
  get k (formData (comp w')) = get k (formData (comp w))
  /\ get (target e) (formData (comp w')) = written e (formData (comp w))
  /\ step (comp w') = step (comp w)
  /\ loadingUser (comp w') = loadingUser (comp w)
  /\ userInfos (comp w') = userInfos (comp w)
  /\ updateUser (comp w') = updateUser (comp w)
  /\ (e = ToggleGarden ->
      has_garden (formData (comp w'))
      = negb (has_garden (formData (comp w))))
  /\ (e = ToggleSolarPanels ->
      has_solar_panels (formData (comp w'))
      = negb (has_solar_panels (formData (comp w)))).
Proof.
  intros H Hk. rewrite (edit_inv e w w' H). simpl.
  split; [apply updater_frame; exact Hk|].
  split; [apply updater_writes|].
  repeat split; intros ->; reflexivity.
Qed.

Lemma edit_changes_only_target_witness :
  exists w',
    handle (Edit ToggleGarden) (on_comp (setLoadingUser false)
                                  (first_render (Some ana))) = Some w'
    /\ f_name <> target ToggleGarden
    /\ get f_name (formData (comp w')) = Text []
    /\ has_garden (formData (comp w')) = true
    /\ step (comp w') = 1.
Proof.
  eexists. split; [reflexivity|].
  assert (f_name <> target ToggleGarden) as Hk by discriminate.
  split; [exact Hk|].
  destruct (edit_changes_only_target ToggleGarden
              (on_comp (setLoadingUser false) (first_render (Some ana)))
              _ f_name eq_refl Hk)
    as (Hn & _ & Hs & _ & _ & _ & Hg & _).
  split; [exact Hn|]. split; [exact (Hg eq_refl) | exact Hs].
Defined.

(** * Further properties *)

(** ** What each event is and leaves alone *)

Lemma perform_all_frame (effects : list Effect) (w : World) :
  currentUser (perform_all effects w) = currentUser w
  /\ mounted (perform_all effects w) = mounted w
  /\ lookups (perform_all effects w) = lookups w
  /\ upserts (perform_all effects w) = upserts w.
Proof.
  unfold perform_all.
  revert w; induction effects as [|e rest IH]; intro w; simpl.
  - repeat split.
  - destruct (IH (perform e w)) as (A & B & C & D).
    rewrite A, B, C, D. destruct e; repeat split.
Qed.

Lemma guard_resume_form (m : bool) (o : LookupOutcome) (w : World) :
  (formData (comp (perform_all (guard_resume m o) w)) = formData (comp w)
   \/ formData (comp (perform_all (guard_resume m o) w)) = initialFormState)
  /\ (loadingUser (comp (perform_all (guard_resume m o) w)) = true ->
      loadingUser (comp w) = true).
Proof.
  unfold guard_resume, guard_try_resume.
  destruct o as [data error | reason]; simpl.
  - destruct (fatal_error error); [|destruct (completed_flag data)];
      destruct m; simpl; split; auto; discriminate.
  - destruct m; simpl; split; auto; discriminate.
Qed.

Lemma settle_frame (o : UpsertOutcome) (w : World) :
  currentUser (settle o w) = currentUser w
  /\ lookups (settle o w) = lookups w
  /\ upserts (settle o w) = upserts w
  /\ step (comp (settle o w)) = step (comp w)
  /\ formData (comp (settle o w)) = formData (comp w)
  /\ loadingUser (comp (settle o w)) = loadingUser (comp w).
Proof.
  unfold settle. destruct (mutationFn_resume o); simpl; repeat split.
Qed.

Lemma settle_earlier_frame (o : UpsertOutcome) (n : nat) (w : World) :
  comp (settle_earlier o n w) = comp w
  /\ currentUser (settle_earlier o n w) = currentUser w
  /\ lookups (settle_earlier o n w) = lookups w
  /\ upserts (settle_earlier o n w) = upserts w.
Proof.
  unfold settle_earlier. destruct (mutationFn_resume o); repeat split.
Qed.

(** ** Trimming *)

Lemma trimStart_split (s : jsstring) :
  exists sp, s = (sp ++ trimStart s)%list /\ forallb is_space sp = true.
Proof.
  induction s as [|c rest IH]; simpl.
  - exists []. split; reflexivity.
  - destruct (is_space c) eqn:E.
    + destruct IH as (sp & H1 & H2). exists (c :: sp). simpl.
      rewrite E, H2. split; [f_equal; exact H1 | reflexivity].
    + exists []. split; reflexivity.
Qed.

Lemma trimStart_head (s : jsstring) (c : N) (rest : jsstring) :
  trimStart s = c :: rest -> is_space c = false.
Proof.
  induction s as [|d s' IH]; simpl; [discriminate|].
  destruct (is_space d) eqn:E; [exact IH|].
  intro H; injection H as <- _. exact E.
Qed.

Lemma trimStart_fixed (s : jsstring) :
  (forall c rest, s = c :: rest -> is_space c = false) -> trimStart s = s.
Proof.
  destruct s as [|c rest]; simpl; intro H; [reflexivity|].
  rewrite (H c rest eq_refl). reflexivity.
Qed.

Lemma trimStart_idempotent (s : jsstring) :
  trimStart (trimStart s) = trimStart s.
Proof.
  apply trimStart_fixed. intros c rest H.
  exact (trimStart_head s c rest H).
Qed.

Lemma trimStart_spaces (s : jsstring) :
  forallb is_space s = true -> trimStart s = [].
Proof.
  induction s as [|c rest IH]; simpl; [reflexivity|].
  destruct (is_space c); simpl; [exact IH | discriminate].
Qed.

Lemma forallb_rev (f : N -> bool) (s : jsstring) :
  forallb f s = true -> forallb f (rev s) = true.
Proof.
  rewrite !forallb_forall. intros H x Hx. apply H, in_rev. exact Hx.
Qed.

Lemma trim_split (s : jsstring) :
  exists l r,
    s = (l ++ trim s ++ r)%list
    /\ forallb is_space l = true
    /\ forallb is_space r = true.
Proof.
  destruct (trimStart_split s) as (l & Hl & Hls).
  destruct (trimStart_split (rev (trimStart s))) as (sp & Hr & Hrs).
  exists l, (rev sp). split; [|split].
  - unfold trim, trimEnd. rewrite <- rev_app_distr, <- Hr, rev_involutive.
    exact Hl.
  - exact Hls.
  - apply forallb_rev. exact Hrs.
Qed.

Lemma trim_first (s : jsstring) (c : N) (rest : jsstring) :
  trim s = c :: rest -> is_space c = false.
Proof.
  intro H.
  destruct (trimStart_split (rev (trimStart s))) as (sp & Hr & _).
  apply (f_equal (@rev N)) in Hr.
  rewrite rev_involutive, rev_app_distr in Hr.
  unfold trim, trimEnd in H. rewrite H in Hr. simpl in Hr.
  exact (trimStart_head s c _ Hr).
Qed.

Lemma trim_last (s : jsstring) (c : N) (front : jsstring) :
  trim s = (front ++ [c])%list -> is_space c = false.
Proof.
  unfold trim, trimEnd. intro H.
  apply (f_equal (@rev N)) in H.
  rewrite rev_involutive, rev_app_distr in H. simpl in H.
  exact (trimStart_head _ c _ H).
Qed.

Lemma trim_idempotent (s : jsstring) : trim (trim s) = trim s.
Proof.
  assert (trimStart (trim s) = trim s) as H1.
  { apply trimStart_fixed. intros c rest H. exact (trim_first s c rest H). }
  unfold trim at 1. rewrite H1. unfold trim, trimEnd.
  rewrite rev_involutive, trimStart_idempotent. reflexivity.
Qed.

Lemma trim_empty_iff (s : jsstring) :
  trim s = [] <-> forallb is_space s = true.
Proof.
  split; intro H.
  - destruct (trim_split s) as (l & r & Hs & Hl & Hr).
    rewrite H in Hs. simpl in Hs. rewrite Hs, forallb_app, Hl, Hr.
    reflexivity.
  - unfold trim, trimEnd. rewrite (trimStart_spaces s H). reflexivity.
Qed.

(** ** The invariant of the page *)

Lemma chosen_nonempty (options : list jsstring) (v : jsstring) :
  chosen_from options v -> v <> [] -> mem v options = true.
Proof. intros [H | H] Hv; [contradiction | exact H]. Qed.

Lemma mem_nonempty (v : jsstring) (options : list jsstring) :
  mem [] options = false -> mem v options = true -> v <> [].
Proof. intros H0 H ->. congruence. Qed.

Lemma mount_invariant (user : option User) : page_invariant (mount user).
Proof.
  destruct user as [u|]; unfold page_invariant, steps_done,
    choices_in_tables, chosen_from, pristine; simpl;
    repeat split; intros; try lia; try discriminate;
    try (left; reflexivity); constructor.
Qed.

Lemma steps_done_initial (c : Component) : step c = 1 -> steps_done c.
Proof. intro H. unfold steps_done. rewrite H. repeat split; intros; lia. Qed.

Lemma choices_initial : choices_in_tables initialFormState.
Proof. repeat split; left; reflexivity. Qed.

(** Whatever panel an edit comes from, it leaves the choices made
    chosen. *)
Lemma edit_keeps_steps_done (e : FieldEdit) (c : Component) (shown : Z) :
  offered shown e = true ->
  steps_done c -> steps_done (setFormData (updater e) c).
Proof.
  intros Ho (S1 & S2 & S3). unfold steps_done.
  destruct e; simpl in *;
    try (apply andb_true_iff in Ho; destruct Ho as [_ Ho]);
    (split; [|split]); intro H;
    solve [ exact (S1 H) | exact (S2 H) | exact (S3 H)
          | intros ->; vm_compute in Ho; discriminate ].
Qed.

Lemma edit_keeps_choices (e : FieldEdit) (c : Component) (shown : Z) :
  offered shown e = true ->
  choices_in_tables (formData c) ->
  choices_in_tables (updater e (formData c)).
Proof.
  intros Ho (C1 & C2 & C3 & C4). unfold choices_in_tables.
  destruct e; simpl in *;
    try (apply andb_true_iff in Ho; destruct Ho as [_ Ho]);
    repeat split; try assumption; right; exact Ho.
Qed.

Lemma next_keeps_steps_done (c : Component) :
  1 <= step c < 4 ->
  nextDisabled (step c) (formData c) = false ->
  steps_done c -> steps_done (setStep (fun prev => prev + 1) c).
Proof.
  intros Hr Hn (S1 & S2 & S3).
  apply nextDisabled_false_spec in Hn; [|lia].
  destruct Hn as (R1 & R2 & R3 & _).
  unfold steps_done; simpl. split; [|split]; intro H.
  - destruct (Z.eq_dec (step c) 1) as [E | E];
      [exact (proj2 (proj2 (R1 E))) | apply S1; lia].
  - destruct (Z.eq_dec (step c) 2) as [E | E]; [exact (R2 E) | apply S2; lia].
  - destruct (Z.eq_dec (step c) 3) as [E | E]; [exact (R3 E) | apply S3; lia].
Qed.

Lemma submitted_call_complete (w : World) (u : User) :
  step (comp w) = 4 ->
  nextDisabled 4 (formData (comp w)) = false ->
  steps_done (comp w) ->
  choices_in_tables (formData (comp w)) ->
  currentUser w = Some u ->
  complete_call (currentUser w)
    {| u_from := "tb_user_infos";
       u_row :=
         {| user_id := id u;
            fields := handleSubmit_payload (formData (comp w)) |};
       u_onConflict := "user_id" |}.
Proof.
  intros H4 Hn (S1 & S2 & S3) (C1 & C2 & C3 & C4) Hu.
  assert (recycling_habit (formData (comp w)) <> []) as N4.
  { apply truthy_iff. simpl in Hn.
    destruct (truthy (recycling_habit (formData (comp w))));
      [reflexivity | discriminate]. }
  unfold complete_call; simpl. repeat split.
  - exists u. split; [exact Hu | reflexivity].
  - apply trim_idempotent.
  - apply (chosen_nonempty _ _ C1). apply S1. lia.
  - apply (chosen_nonempty _ _ C2). apply S2. lia.
  - apply (chosen_nonempty _ _ C3). apply S3. lia.
  - exact (chosen_nonempty _ _ C4 N4).
Qed.

Lemma handle_invariant (ev : Event) (w w' : World) :
  reachable w -> page_invariant w ->
  handle ev w = Some w' -> page_invariant w'.
Proof.
  intros Hw (P & S & C & U & L) Hev.
  pose proof (reachable_step_range w Hw) as Hr.
  destruct ev.
  - destruct (back_inv w w' Hev) as (-> & _ & Hl & Hs).
    unfold page_invariant; simpl. split; [|split; [|split; [|split]]];
      try assumption.
    + rewrite Hl. discriminate.
    + destruct S as (S1 & S2 & S3). unfold steps_done; simpl.
      split; [|split]; intro H; [apply S1 | apply S2 | apply S3]; lia.
  - destruct (next_inv w w' Hev) as (-> & _ & Hl & Hs & Hn).
    unfold page_invariant; simpl. split; [|split; [|split; [|split]]];
      try assumption.
    + rewrite Hl. discriminate.
    + apply next_keeps_steps_done; [lia | assumption | assumption].
  - destruct (finish_click_inv w w' Hev) as (-> & _ & Hl & Hs & _ & Hn).
    apply Z.ltb_ge in Hs. unfold totalSteps in Hs.
    assert (step (comp w) = 4) as H4 by lia. rewrite H4 in Hn.
    unfold handleSubmit, mutate, mutationFn_sync.
    destruct (currentUser w) as [u|] eqn:Hu;
      unfold page_invariant; simpl; rewrite ?Hu;
      (split; [rewrite Hl; discriminate|]);
      (split; [exact S|]); (split; [exact C|]); (split; [|exact L]).
    + apply Forall_app. split; [exact U|]. constructor; [|constructor].
      rewrite <- Hu. apply submitted_call_complete; assumption.
    + exact U.
  - destruct (edit_offered_inv e w w' Hev) as (-> & _ & Hl & Ho).
    unfold page_invariant; simpl. split; [|split; [|split; [|split]]];
      try assumption.
    + rewrite Hl. discriminate.
    + exact (edit_keeps_steps_done e (comp w) (presented w) Ho S).
    + exact (edit_keeps_choices e (comp w) (presented w) Ho C).
  - destruct (lookup_settles_inv o w w' Hev) as (Hf & ->).
    destruct (P (loading_while_lookup w Hw Hf)) as ((P1 & P2 & P3) & P4).
    remember (set_lookup_in_flight false w) as w0 eqn:E0.
    destruct (perform_all_frame (guard_resume (mounted w) o) w0)
      as (F1 & _ & F3 & F4).
    pose proof (perform_all_step (guard_resume (mounted w) o) w0) as F5.
    pose proof (perform_all_updateUser (guard_resume (mounted w) o) w0)
      as F6.
    destruct (guard_resume_form (mounted w) o w0) as (F7 & _).
    assert (formData
              (comp (perform_all (guard_resume (mounted w) o) w0))
            = initialFormState) as F8.
    { destruct F7 as [F7 | F7]; [|exact F7].
      rewrite F7, E0. exact P2. }
    rewrite E0 in F1, F3, F4, F5, F6. simpl in F1, F3, F4, F5, F6.
    rewrite <- E0 in *.
    unfold page_invariant. rewrite F1, F3, F4, F8.
    split; [|split; [|split; [|split]]].
    + intros _. split; [|exact P4].
      unfold pristine. rewrite F5, F6, F8. repeat split; assumption.
    + apply steps_done_initial. rewrite F5. exact P1.
    + exact choices_initial.
    + exact U.
    + exact L.
  - destruct (upsert_settles_inv o w w' Hev) as (Hp & ->).
    destruct (settle_frame o w) as (F1 & F2 & F3 & F4 & F5 & F6).
    unfold page_invariant, steps_done. rewrite F1, F2, F3, F4, F5, F6.
    split; [|split; [|split; [|split]]]; try assumption.
    intro Hl. destruct (P Hl) as ((_ & _ & P3) & _).
    rewrite P3 in Hp. discriminate.
  - destruct (unmount_inv w w' Hev) as (_ & ->).
    unfold page_invariant; simpl. split; [|split; [|split; [|split]]];
      assumption.
  - destruct (exit_complete_inv w w' Hev) as (-> & _).
    unfold page_invariant; simpl. split; [|split; [|split; [|split]]];
      assumption.
  - destruct (notified_inv w w' Hev) as (-> & _).
    unfold page_invariant; simpl. split; [|split; [|split; [|split]]];
      assumption.
  - destruct (earlier_settles_inv o w w' Hev) as (n & _ & ->).
    destruct (settle_earlier_frame o n w) as (F1 & F2 & F3 & F4).
    unfold page_invariant. rewrite F1, F2, F3, F4.
    split; [|split; [|split; [|split]]]; assumption.
Qed.

Lemma reachable_invariant (w : World) : reachable w -> page_invariant w.
Proof.
  induction 1 as [user | w w' ev Hw IH Hev].
  - apply mount_invariant.
  - exact (handle_invariant ev w w' Hw IH Hev).
Qed.

(** ** Numbers written in decimal digits *)

Lemma is_digit_enum (c : N) :
  is_digit c = true ->
  (c = 48 \/ c = 49 \/ c = 50 \/ c = 51 \/ c = 52
   \/ c = 53 \/ c = 54 \/ c = 55 \/ c = 56 \/ c = 57)%N.
Proof.
  unfold is_digit. intro H. apply andb_true_iff in H. destruct H as [H1 H2].
  apply N.leb_le in H1, H2. lia.
Qed.

Ltac digit_cases c H :=
  destruct (is_digit_enum c H)
    as [-> | [-> | [-> | [-> | [-> | [-> | [-> | [-> | [-> | ->]]]]]]]]].

Lemma digit_not_space (c : N) : is_digit c = true -> is_space c = false.
Proof. intro H. digit_cases c H; reflexivity. Qed.

Lemma digit_value_digit (c : N) :
  is_digit c = true -> digit_value 10 c = Some (Z.of_N c - 48).
Proof. intro H. digit_cases c H; reflexivity. Qed.

Lemma read_digits_all (s : jsstring) (acc n : Z) :
  forallb is_digit s = true ->
  read_digits 10 acc n s
  = (digits_value acc s, n + Z.of_nat (List.length s), []).
Proof.
  revert acc n; induction s as [|c rest IH]; intros acc n H.
  - simpl. rewrite Z.add_0_r. reflexivity.
  - simpl in H. apply andb_true_iff in H. destruct H as [Hc Hr].
    cbn [read_digits digits_value]. rewrite (digit_value_digit c Hc).
    rewrite (IH _ _ Hr). f_equal. f_equal.
    change (List.length (c :: rest)) with (S (List.length rest)). lia.
Qed.

Lemma digits_value_nonneg (s : jsstring) (acc : Z) :
  forallb is_digit s = true -> 0 <= acc -> 0 <= digits_value acc s.
Proof.
  revert acc; induction s as [|c rest IH]; intros acc H Ha; simpl.
  - exact Ha.
  - simpl in H. apply andb_true_iff in H. destruct H as [Hc Hr].
    apply IH; [exact Hr|]. digit_cases c Hc; lia.
Qed.

Lemma trim_digits (s : jsstring) : forallb is_digit s = true -> trim s = s.
Proof.
  intro H.
  assert (forall t, forallb is_digit t = true -> trimStart t = t) as Hfix.
  { intros t Ht. apply trimStart_fixed. intros c rest ->.
    simpl in Ht. apply andb_true_iff in Ht. destruct Ht as [Hc _].
    exact (digit_not_space c Hc). }
  unfold trim, trimEnd. rewrite (Hfix s H).
  rewrite (Hfix (rev s) (forallb_rev is_digit s H)).
  apply rev_involutive.
Qed.

Lemma round_half_even_one (a : Z) : round_half_even a 1 = a.
Proof.
  unfold round_half_even. rewrite Z.mod_1_r, Z.div_1_r. reflexivity.
Qed.

Lemma floor_log2_integer (v : Z) : 0 < v -> floor_log2 v 1 = Z.log2 v.
Proof.
  intro Hv. unfold floor_log2. change (Z.log2 1) with 0.
  rewrite Z.sub_0_r.
  pose proof (Z.log2_nonneg v) as He.
  destruct (Z.log2_spec v Hv) as [Hlo _].
  destruct (0 <=? Z.log2 v) eqn:E; [|apply Z.leb_gt in E; lia].
  destruct (1 * 2 ^ Z.log2 v <=? v) eqn:E2; [reflexivity|].
  apply Z.leb_gt in E2. lia.
Qed.

Lemma Qred_integer (v : Z) : Qred (inject_Z v) = inject_Z v.
Proof. apply Qred_identity. simpl. apply Z.gcd_1_r. Qed.

(** Integers up to 2^53 are doubles. *)
Lemma round_double_integer (v : Z) :
  0 <= v < 2 ^ 53 -> round_double false v 1 = Finite false (inject_Z v).
Proof.
  intros [H0 H53]. unfold round_double.
  destruct (v =? 0) eqn:E0.
  - apply Z.eqb_eq in E0. subst v. reflexivity.
  - apply Z.eqb_neq in E0. assert (0 < v) as Hv by lia.
    rewrite (floor_log2_integer v Hv).
    pose proof (Z.log2_nonneg v) as He.
    assert (Z.log2 v < 53) as He2 by (apply Z.log2_lt_pow2; assumption).
    rewrite Z.max_l by lia.
    destruct (0 <=? Z.log2 v - 52) eqn:Ek.
    + apply Z.leb_le in Ek. assert (Z.log2 v - 52 = 0) as -> by lia.
      change (1 * 2 ^ 0) with 1. rewrite round_half_even_one.
      change (2 ^ 0) with 1. rewrite Z.mul_1_r.
      destruct (2 ^ 1024 <=? v) eqn:Eo; [|reflexivity].
      apply Z.leb_le in Eo.
      assert (2 ^ 53 < 2 ^ 1024) by (apply Z.pow_lt_mono_r; lia). lia.
    + apply Z.leb_gt in Ek. rewrite round_half_even_one.
      set (j := - (Z.log2 v - 52)). assert (0 < 2 ^ j) as Hj
        by (apply Z.pow_pos_nonneg; unfold j; lia).
      f_equal. rewrite <- (Qred_integer v). apply Qred_complete.
      unfold Qeq, inject_Z; simpl. rewrite Z2Pos.id by exact Hj. lia.
Qed.

Lemma non_decimal_digits (s : jsstring) :
  forallb is_digit s = true -> non_decimal s = None.
Proof.
  destruct s as [|c rest]; [reflexivity|]. simpl forallb.
  intro H. apply andb_true_iff in H. destruct H as [Hc Hr].
  digit_cases c Hc; try reflexivity.
  destruct rest as [|p digits]; [reflexivity|].
  simpl in Hr. apply andb_true_iff in Hr. destruct Hr as [Hp _].
  digit_cases p Hp; reflexivity.
Qed.

Lemma Number_digit_head (s : jsstring) (c : N) (rest : jsstring) :
  trim s = c :: rest ->
  is_digit c = true ->
  Number s
  = match non_decimal (c :: rest) with
    | Some n => n
    | None => unsigned_decimal false (c :: rest)
    end.
Proof.
  intros Ht Hc. unfold Number. rewrite Ht.
  digit_cases c Hc; reflexivity.
Qed.

Lemma Number_of_digits (s : jsstring) :
  s <> [] ->
  forallb is_digit s = true ->
  Number s = round_double false (digits_value 0 s) 1.
Proof.
  intros Hs H. destruct s as [|c rest]; [contradiction|].
  assert (is_digit c = true) as Hc
    by (simpl in H; apply andb_true_iff in H; tauto).
  rewrite (Number_digit_head (c :: rest) c rest (trim_digits _ H) Hc).
  rewrite (non_decimal_digits (c :: rest) H).
  unfold unsigned_decimal.
  assert (eqb (c :: rest) (lit "Infinity") = false) as ->.
  { destruct (eqb (c :: rest) (lit "Infinity")) eqn:E; [|reflexivity].
    apply eqb_eq in E. injection E as -> _. discriminate. }
  rewrite (read_digits_all (c :: rest) 0 0 H). cbv beta iota zeta.
  change (List.length (c :: rest)) with (S (List.length rest)).
  assert ((0 <? 0 + Z.of_nat (S (List.length rest)) + 0) = true) as ->
    by (apply Z.ltb_lt; lia).
  unfold scale10. change (0 <=? - 0) with true. cbv iota.
  change (10 ^ 0) with 1. rewrite Z.mul_1_r. reflexivity.
Qed.

(** ** Progress, option buttons and the gates *)

Lemma reachable_step_cases (w : World) :
  reachable w ->
  step (comp w) = 1 \/ step (comp w) = 2
  \/ step (comp w) = 3 \/ step (comp w) = 4.
Proof. intro Hw. pose proof (reachable_step_range w Hw). lia. Qed.

(** X1: on every state the page can reach, the progress value is exactly
    25 times the step, and the text in front of the percent sign is that
    number in digits; it reads 100 on step 4 and only there. *)
Theorem progress_on_reachable (w : World) :
  reachable w ->
  progress (step (comp w)) = Finite false (inject_Z (25 * step (comp w)))
  /\ progress_label (step (comp w)) = Some (decimal (25 * step (comp w)))
  /\ (progress_label (step (comp w)) = Some (lit "100")
      <-> step (comp w) = 4).
Proof.
  intro Hw.
  destruct (reachable_step_cases w Hw) as [E | [E | [E | E]]]; rewrite E;
    (split; [vm_compute; reflexivity|]);
    (split; [vm_compute; reflexivity|]);
    split; intro H; try reflexivity; try lia;
    vm_compute in H; discriminate.
Qed.

Lemma progress_on_reachable_witness :
  reachable example_world
  /\ progress_label (step (comp example_world)) = Some (lit "100").
Proof.
  split; [exact example_world_reachable|].
  destruct (progress_on_reachable example_world example_world_reachable)
    as (_ & _ & H).
  apply H. reflexivity.
Defined.

Lemma mem_In (v : jsstring) (options : list jsstring) :
  mem v options = true <-> In v options.
Proof.
  unfold mem. rewrite existsb_exists. split.
  - intros (x & Hx & E). apply eqb_eq in E. subst x. exact Hx.
  - intro H. exists v. split; [exact H | apply eqb_eq; reflexivity].
Qed.

Ltac table_cases H :=
  apply mem_In in H; simpl in H;
  repeat (destruct H as [H | H]); try contradiction; subst.

(** X2: on every reachable state each choice field of the form is either
    empty or a value of its own option table, and the buttons of each
    table show at most one selection: none while the field is empty, else
    exactly the button of the chosen value. *)
Theorem choices_come_from_tables (w : World) :
  reachable w ->
  (residence_size (formData (comp w)) = []
   \/ In (residence_size (formData (comp w))) residenceSizeOptions)
  /\ (transportation_type (formData (comp w)) = []
      \/ In (transportation_type (formData (comp w))) transportOptions)
  /\ (heating_type (formData (comp w)) = []
      \/ In (heating_type (formData (comp w))) heatingOptions)
  /\ (recycling_habit (formData (comp w)) = []
      \/ In (recycling_habit (formData (comp w))) recyclingOptions)
  /\ highlighted residenceSizeOptions (residence_size (formData (comp w)))
     = (if truthy (residence_size (formData (comp w)))
        then [residence_size (formData (comp w))] else [])
  /\ highlighted transportOptions (transportation_type (formData (comp w)))
     = (if truthy (transportation_type (formData (comp w)))
        then [transportation_type (formData (comp w))] else [])
  /\ highlighted heatingOptions (heating_type (formData (comp w)))
     = (if truthy (heating_type (formData (comp w)))
        then [heating_type (formData (comp w))] else [])
  /\ highlighted recyclingOptions (recycling_habit (formData (comp w)))
     = (if truthy (recycling_habit (formData (comp w)))
        then [recycling_habit (formData (comp w))] else []).
Proof.
  intro Hw.
  destruct (reachable_invariant w Hw) as (_ & _ & (C1 & C2 & C3 & C4) & _).
  repeat split.
  - destruct C1 as [E | E]; [left; exact E | right; apply mem_In; exact E].
  - destruct C2 as [E | E]; [left; exact E | right; apply mem_In; exact E].
  - destruct C3 as [E | E]; [left; exact E | right; apply mem_In; exact E].
  - destruct C4 as [E | E]; [left; exact E | right; apply mem_In; exact E].
  - destruct C1 as [E | E]; [rewrite E; reflexivity|].
    table_cases E; rewrite <- E; reflexivity.
  - destruct C2 as [E | E]; [rewrite E; reflexivity|].
    table_cases E; rewrite <- E; reflexivity.
  - destruct C3 as [E | E]; [rewrite E; reflexivity|].
    table_cases E; rewrite <- E; reflexivity.
  - destruct C4 as [E | E]; [rewrite E; reflexivity|].
    table_cases E; rewrite <- E; reflexivity.
Qed.

Lemma choices_come_from_tables_witness :
  reachable example_world
  /\ highlighted transportOptions
       (transportation_type (formData (comp example_world)))
     = [lit "bicycle"].
Proof.
  split; [exact example_world_reachable|].
  destruct (choices_come_from_tables example_world example_world_reachable)
    as (_ & _ & _ & _ & _ & H & _).
  exact H.
Defined.

(** X3: from step 2 on, a step is satisfied by one pick: when the panel
    on screen is the one of the current step, any pick made in it opens
    the gate [nextDisabled] of the step. *)
Theorem pick_opens_gate (e : FieldEdit) (w w' : World) :
  handle (Edit e) w = Some w' ->
  presented w = step (comp w) ->
  2 <= step (comp w) ->
  e <> ToggleSolarPanels ->
  nextDisabled (step (comp w')) (formData (comp w')) = false.
Proof.
  intros H Hp H2 He.
  destruct (edit_offered_inv e w w' H) as (-> & _ & _ & Ho).
  rewrite Hp in Ho.
  destruct e; simpl in Ho; try contradiction;
    try (apply andb_true_iff in Ho; destruct Ho as [Ho Hm]);
    apply Z.eqb_eq in Ho; try lia; simpl; rewrite Ho;
    (destruct v; [vm_compute in Hm; discriminate | reflexivity]).
Qed.

Lemma step_two_world_reachable : reachable step_two_world.
Proof.
  apply (run_reachable
           [ LookupSettles no_row;
             Edit (EditName (lit "Ana"));
             Edit (EditHouseholdSize (lit "3"));
             Edit (PickResidenceSize (lit "medium"));
             ClickNext;
             ExitComplete ] (mount (Some ana))).
  - apply reach_mount.
  - vm_compute. reflexivity.
Qed.

Lemma pick_opens_gate_witness :
  exists w',
    handle (Edit (PickTransportationType (lit "walk"))) step_two_world
    = Some w'
    /\ presented step_two_world = step (comp step_two_world)
    /\ nextDisabled (step (comp step_two_world))
         (formData (comp step_two_world)) = true
    /\ nextDisabled (step (comp w')) (formData (comp w')) = false.
Proof.
  eexists. split; [reflexivity|]. split; [reflexivity|].
  split; [reflexivity|].
  apply (pick_opens_gate (PickTransportationType (lit "walk"))
           step_two_world).
  - reflexivity.
  - reflexivity.
  - simpl. lia.
  - discriminate.
Defined.

(** X4: Next on step 1 is disabled exactly when the name is made of white
    space only (or is empty), or the household size is empty, or no
    residence size is chosen. *)
Theorem step_one_gate (f : FormData) :
  nextDisabled 1 f = true
  <-> forallb is_space (name f) = true
      \/ household_size f = []
      \/ residence_size f = [].
Proof.
  unfold nextDisabled. rewrite !orb_true_iff, <- trim_empty_iff.
  assert (forall s : jsstring, negb (truthy s) = true <-> s = []) as Hn
    by (intros [|c rest]; simpl; split; intro H;
        try reflexivity; discriminate).
  rewrite !Hn. tauto.
Qed.

(** X5: [trim] takes white space, and nothing else, off both ends: the
    text is the trimmed text between two runs of white space, the trimmed
    text neither starts nor ends with white space, and trimming it again
    changes nothing.  So the name that is sent has no space around it. *)
Theorem trim_takes_outer_space (s : jsstring) :
  (exists l r,
      s = (l ++ trim s ++ r)%list
      /\ forallb is_space l = true
      /\ forallb is_space r = true)
  /\ (forall c rest, trim s = c :: rest -> is_space c = false)
  /\ (forall c front, trim s = (front ++ [c])%list -> is_space c = false)
  /\ trim (trim s) = trim s
  /\ forall f, name f = s -> p_name (handleSubmit_payload f) = trim s.
Proof.
  split; [apply trim_split|].
  split; [exact (trim_first s)|].
  split; [exact (trim_last s)|].
  split; [apply trim_idempotent|].
  intros f <-. reflexivity.
Qed.

Lemma trim_takes_outer_space_witness :
  trim (lit "  Ana Silva ") = lit "Ana Silva"
  /\ is_space 65 = false.
Proof.
  split; [reflexivity|].
  destruct (trim_takes_outer_space (lit "  Ana Silva ")) as (_ & H & _).
  apply (H 65%N (lit "na Silva")). reflexivity.
Defined.

(** X6: a household size typed as plain decimal digits, below 2^53, is
    sent as exactly the integer the digits write; what is sent is then a
    positive integer exactly when that integer is not zero. *)
Theorem typed_digits_are_sent (f : FormData) :
  household_size f <> [] ->
  forallb is_digit (household_size f) = true ->
  digits_value 0 (household_size f) < 2 ^ 53 ->
  p_household_size (handleSubmit_payload f)
  = Finite false (inject_Z (digits_value 0 (household_size f)))
  /\ is_positive_integer (p_household_size (handleSubmit_payload f))
     = (0 <? digits_value 0 (household_size f)).
Proof.
  intros Hne Hd Hlt.
  assert (p_household_size (handleSubmit_payload f)
          = Finite false (inject_Z (digits_value 0 (household_size f))))
    as E.
  { simpl. rewrite (Number_of_digits _ Hne Hd).
    apply round_double_integer. split; [|exact Hlt].
    apply digits_value_nonneg; [exact Hd | lia]. }
  split; [exact E|]. rewrite E. unfold is_positive_integer.
  rewrite Qred_integer. simpl. apply andb_true_r.
Qed.

Lemma typed_digits_are_sent_witness :
  let f := with_household_size (lit "12") initialFormState in
  household_size f <> []
  /\ forallb is_digit (household_size f) = true
  /\ digits_value 0 (household_size f) < 2 ^ 53
  /\ p_household_size (handleSubmit_payload f) = Finite false 12.
Proof.
  intro f.
  assert (household_size f <> []) as H1 by discriminate.
  assert (forallb is_digit (household_size f) = true) as H2 by reflexivity.
  assert (digits_value 0 (household_size f) < 2 ^ 53) as H3
    by reflexivity.
  split; [exact H1|]. split; [exact H2|]. split; [exact H3|].
  destruct (typed_digits_are_sent f H1 H2 H3) as [E _]. exact E.
Defined.

(** ** What reaches the store *)

(** X7: a choice made on an earlier step stays made.  On a reachable
    state the residence size is a value of its table from step 2 on, the
    transportation type from step 3 on, and the heating type on step 4.
    (The name and the household size give no such hold, see below.) *)
Theorem earlier_choices_stay_made (w : World) :
  reachable w ->
  (2 <= step (comp w) ->
   In (residence_size (formData (comp w))) residenceSizeOptions)
  /\ (3 <= step (comp w) ->
      In (transportation_type (formData (comp w))) transportOptions)
  /\ (4 <= step (comp w) ->
      In (heating_type (formData (comp w))) heatingOptions).
Proof.
  intro Hw.
  destruct (reachable_invariant w Hw)
    as (_ & (S1 & S2 & S3) & (C1 & C2 & C3 & _) & _).
  split; [|split]; intro H; apply mem_In.
  - exact (chosen_nonempty _ _ C1 (S1 H)).
  - exact (chosen_nonempty _ _ C2 (S2 H)).
  - exact (chosen_nonempty _ _ C3 (S3 H)).
Qed.

Lemma earlier_choices_stay_made_witness :
  reachable example_world
  /\ In (heating_type (formData (comp example_world))) heatingOptions.
Proof.
  split; [exact example_world_reachable|].
  destruct (earlier_choices_stay_made example_world
              example_world_reachable) as (_ & _ & H).
  apply H. simpl. lia.
Defined.

(** The panel of step 1 takes edits while it animates out: the name can
    be emptied on step 2, nothing asks for it again, and the upsert then
    carries an empty name. *)
Lemma exiting_panel_takes_edits :
  exists w,
    run [ LookupSettles no_row;
          Edit (EditName (lit "Ana"));
          Edit (EditHouseholdSize (lit "3"));
          Edit (PickResidenceSize (lit "medium"));
          ClickNext;
          Edit (EditName []);
          ExitComplete;
          Edit (PickTransportationType (lit "bicycle"));
          ClickNext;
          ExitComplete;
          Edit (PickHeatingType (lit "solar"));
          ClickNext;
          ExitComplete;
          Edit (PickRecyclingHabit (lit "always"));
          ClickFinish ] (mount (Some ana)) = Some w
    /\ List.map (fun call => p_name (fields (u_row call))) (upserts w)
       = [[]].
Proof. eexists. split; [vm_compute; reflexivity | reflexivity]. Qed.

(** X8: every upsert the page ever sends is well formed: it goes to
    tb_user_infos on conflict user_id under the id of the signed-in user,
    with a trimmed name, a value of the matching table in each of the
    four choice fields, and both flags true.  Without a user nothing is
    sent at all. *)
Theorem every_upsert_is_complete (w : World) :
  reachable w ->
  Forall (complete_call (currentUser w)) (upserts w)
  /\ (currentUser w = None -> upserts w = []).
Proof.
  intro Hw. destruct (reachable_invariant w Hw) as (_ & _ & _ & U & _).
  split; [exact U|]. intro Hn.
  destruct (upserts w) as [|call rest]; [reflexivity|].
  apply Forall_inv in U. destruct U as ((u & Hu & _) & _).
  rewrite Hn in Hu. discriminate.
Qed.

Lemma every_upsert_is_complete_witness :
  reachable saving_world
  /\ List.length (upserts saving_world) = 1%nat
  /\ Forall (complete_call (currentUser saving_world))
       (upserts saving_world).
Proof.
  split; [exact saving_world_reachable|]. split; [reflexivity|].
  exact (proj1 (every_upsert_is_complete saving_world
                  saving_world_reachable)).
Defined.

(** Events never change who is signed in, nor the lookups sent. *)
Lemma handle_user_and_lookups (ev : Event) (w w' : World) :
  handle ev w = Some w' ->
  currentUser w' = currentUser w /\ lookups w' = lookups w.
Proof.
  destruct ev; intro H.
  - destruct (back_inv w w' H) as (-> & _). split; reflexivity.
  - destruct (next_inv w w' H) as (-> & _). split; reflexivity.
  - destruct (finish_click_inv w w' H) as (-> & _).
    unfold handleSubmit, mutate.
    destruct (mutationFn_sync _ _); split; reflexivity.
  - destruct (edit_offered_inv e w w' H) as (-> & _). split; reflexivity.
  - destruct (lookup_settles_inv o w w' H) as (_ & ->).
    destruct (perform_all_frame (guard_resume (mounted w) o)
                (set_lookup_in_flight false w)) as (A & _ & C & _).
    rewrite A, C. split; reflexivity.
  - destruct (upsert_settles_inv o w w' H) as (_ & ->).
    destruct (settle_frame o w) as (A & B & _). rewrite A, B.
    split; reflexivity.
  - destruct (unmount_inv w w' H) as (_ & ->). split; reflexivity.
  - destruct (exit_complete_inv w w' H) as (-> & _). split; reflexivity.
  - destruct (notified_inv w w' H) as (-> & _). split; reflexivity.
  - destruct (earlier_settles_inv o w w' H) as (n & _ & ->).
    destruct (settle_earlier_frame o n w) as (_ & A & B & _).
    rewrite A, B. split; reflexivity.
Qed.

Lemma lookup_needs_user (w : World) :
  reachable w -> lookup_in_flight w = true -> currentUser w <> None.
Proof.
  induction 1 as [user | w w' ev Hw IH Hev]; intro Hf.
  - destruct user; [discriminate | simpl in Hf; discriminate].
  - destruct (handle_keeps_loading ev w w' Hev Hf) as [Hf' _].
    destruct (handle_user_and_lookups ev w w' Hev) as [-> _]. auto.
Qed.

(** X9: one mount asks the store at most once: with a user, the single
    lookup is for that user's id in tb_user_infos, column
    onboarding_completed; without a user there is none.  No later event
    adds a lookup, and a lookup is in flight only when a user is signed
    in. *)
Theorem one_lookup_per_mount (w : World) :
  reachable w ->
  lookups w =
    match currentUser w with
    | Some u =>
        [ {| q_from := "tb_user_infos";
             q_select := "onboarding_completed";
             q_eq := ("user_id", id u) |} ]
    | None => []
    end
  /\ (lookup_in_flight w = true -> currentUser w <> None).
Proof.
  intro Hw. destruct (reachable_invariant w Hw) as (_ & _ & _ & _ & L).
  split; [exact L | exact (lookup_needs_user w Hw)].
Qed.

Lemma one_lookup_per_mount_witness :
  reachable saving_world
  /\ List.map q_eq (lookups saving_world) = [("user_id", lit "user-1")].
Proof.
  split; [exact saving_world_reachable|].
  destruct (one_lookup_per_mount saving_world saving_world_reachable)
    as [L _].
  rewrite L. reflexivity.
Defined.

(** X10: clicks, edits and the unmount stay inside the page: only the
    click on Finish adds an upsert, only a settled lookup writes to the
    console, and only a settled lookup or upsert navigates. *)
Theorem user_events_stay_inside (ev : Event) (w w' : World) :
  handle ev w = Some w' ->
  (ev <> ClickFinish -> upserts w' = upserts w)
  /\ ((forall o, ev <> LookupSettles o) -> console w' = console w)
  /\ ((forall o, ev <> LookupSettles o) ->
      (forall o, ev <> UpsertSettles o) ->
      (forall o, ev <> EarlierUpsertSettles o) ->
      navigations w' = navigations w).
Proof.
  destruct ev; intro H.
  - destruct (back_inv w w' H) as (-> & _). repeat split.
  - destruct (next_inv w w' H) as (-> & _). repeat split.
  - destruct (finish_click_inv w w' H) as (-> & _).
    unfold handleSubmit, mutate.
    destruct (mutationFn_sync _ _); simpl;
      (split; [intro C; contradiction|]); split; reflexivity.
  - destruct (edit_offered_inv e w w' H) as (-> & _). repeat split.
  - destruct (lookup_settles_inv o w w' H) as (_ & ->).
    destruct (perform_all_frame (guard_resume (mounted w) o)
                (set_lookup_in_flight false w)) as (_ & _ & _ & D).
    split; [intros _; exact D|].
    split; intro C; exfalso; exact (C o eq_refl).
  - destruct (upsert_settles_inv o w w' H) as (_ & ->).
    destruct (settle_frame o w) as (_ & _ & C & _).
    split; [intros _; exact C|]. split.
    + intros _. unfold settle. destruct (mutationFn_resume o); reflexivity.
    + intros _ C2. exfalso. exact (C2 o eq_refl).
  - destruct (unmount_inv w w' H) as (_ & ->). repeat split.
  - destruct (exit_complete_inv w w' H) as (-> & _). repeat split.
  - destruct (notified_inv w w' H) as (-> & _). repeat split.
  - destruct (earlier_settles_inv o w w' H) as (n & _ & ->).
    destruct (settle_earlier_frame o n w) as (_ & _ & _ & D).
    split; [intros _; exact D|]. split.
    + intros _. unfold settle_earlier.
      destruct (mutationFn_resume o); reflexivity.
    + intros _ _ C3. exfalso. exact (C3 o eq_refl).
Qed.

Lemma user_events_stay_inside_witness :
  exists w',
    handle ClickBack example_world = Some w'
    /\ navigations w' = navigations example_world
    /\ upserts w' = upserts example_world.
Proof.
  eexists. split; [reflexivity|].
  destruct (user_events_stay_inside ClickBack example_world _ eq_refl)
    as (U & _ & N).
  split.
  - apply N; intros o; discriminate.
  - apply U. discriminate.
Defined.

(** ** When the requests settle *)

(** X11: a signed-in user whose lookup comes back without a fatal error
    and without a completed row (no row, or a row whose flag is false or
    null) is let in: on a mounted page nothing is logged, nothing
    navigates, the stored infos are the spread of the row, and the wizard
    comes on screen on step 1 with the empty form, no Back button and Next
    disabled. *)
Theorem guard_lets_new_user_in
  (w : World) (data : option InfoRow) (error : option StoreError) :
  reachable w ->
  lookup_in_flight w = true ->
  mounted w = true ->
  fatal_error error = None ->
  completed_flag data = false ->
  exists w',
    handle (LookupSettles (LookupFulfilled data error)) w = Some w'
    /\ navigations w' = navigations w
    /\ console w' = console w
    /\ userInfos (comp w') = Some (spread_infos data)
    /\ formData (comp w') = initialFormState
    /\ on_screen w' =
       Some {| panel := 1; back_button := false; forward := NextButton true |}.
Proof.
  intros Hw Hf Hm He Hc.
  destruct (reachable_invariant w Hw) as (P & _).
  destruct (P (loading_while_lookup w Hw Hf)) as ((P1 & _ & _) & _).
  eexists. split; [simpl; rewrite Hf; reflexivity|].
  unfold guard_resume, guard_try_resume. rewrite He, Hc, Hm. simpl.
  repeat split. unfold on_screen, render, wizard; simpl.
  rewrite Hm, P1. reflexivity.
Qed.

Lemma guard_lets_new_user_in_witness :
  let row := Some {| onboarding_completed := Some false |} in
  reachable (mount (Some ana))
  /\ exists w',
       handle (LookupSettles (LookupFulfilled row None)) (mount (Some ana))
       = Some w'
       /\ userInfos (comp w') = Some [("onboarding_completed", Some false)]
       /\ navigations w' = [].
Proof.
  intro row. split; [apply reach_mount|].
  destruct (guard_lets_new_user_in (mount (Some ana)) row None
              (reach_mount (Some ana)) eq_refl eq_refl eq_refl eq_refl)
    as (w' & Hh & Hn & _ & Hu & _).
  exists w'. split; [exact Hh|]. split; [exact Hu | exact Hn].
Defined.

(** X12: on a mounted page the guard ends in one of three ways,
    and always with the spinner gone: it logs an error and navigates to
    Login, or it navigates to Dashboard, or it navigates nowhere and
    leaves the empty form; in the first two it does not write the form.
    The lookup settles once: a second answer finds nothing waiting. *)
Theorem guard_outcomes (w : World) (o : LookupOutcome) :
  lookup_in_flight w = true ->
  mounted w = true ->
  exists w',
    handle (LookupSettles o) w = Some w'
    /\ loadingUser (comp w') = false
    /\ (forall o', handle (LookupSettles o') w' = None)
    /\ ((navigations w' = (navigations w ++ [createPageUrl Login])%list
         /\ (exists thrown,
                console w' =
                (console w
                 ++ [("Erro ao verificar onboarding:", thrown)])%list)
         /\ formData (comp w') = formData (comp w))
        \/ (navigations w' = (navigations w ++ [createPageUrl Dashboard])%list
            /\ console w' = console w
            /\ formData (comp w') = formData (comp w))
        \/ (navigations w' = navigations w
            /\ console w' = console w
            /\ formData (comp w') = initialFormState)).
Proof.
  intros Hf Hm. eexists. split; [simpl; rewrite Hf; reflexivity|].
  unfold guard_resume, guard_try_resume. rewrite Hm.
  destruct o as [data error | reason].
  - destruct (fatal_error error) as [e|]; [|destruct (completed_flag data)];
      simpl; (split; [reflexivity|]); (split; [reflexivity|]).
    + left. repeat split. eexists. reflexivity.
    + right. left. repeat split.
    + right. right. repeat split.
  - simpl. split; [reflexivity|]. split; [reflexivity|].
    left. repeat split. eexists. reflexivity.
Qed.

Lemma guard_outcomes_witness :
  exists w',
    handle (LookupSettles (LookupRejected (JsError "Failed to fetch")))
      (mount (Some ana)) = Some w'
    /\ loadingUser (comp w') = false
    /\ handle (LookupSettles no_row) w' = None.
Proof.
  destruct (guard_outcomes (mount (Some ana))
              (LookupRejected (JsError "Failed to fetch")) eq_refl eq_refl)
    as (w' & Hh & Hl & Hn & _).
  exists w'. split; [exact Hh|]. split; [exact Hl | exact (Hn no_row)].
Defined.



(** ** How the actions compose *)

Lemma setStep_undo (f g : Z -> Z) (c : Component) :
  (forall x, g (f x) = x) -> setStep g (setStep f c) = c.
Proof.
  intro H. destruct c as [s fd ui lu mu].
  unfold setStep; simpl. rewrite H. reflexivity.
Qed.

(** X14: Back and Next undo each other, and nothing typed is lost on the
    way.  On a reachable state, Next followed by Back is always possible
    and gives back the same component state.  Back followed by Next does
    so from steps 3 and 4 always (the step left behind keeps its choice),
    and from step 2 when the fields of step 1 are still set. *)
Theorem back_and_next_undo_each_other (w w1 : World) :
  reachable w ->
  (handle ClickNext w = Some w1 ->
   exists w2,
     handle ClickBack w1 = Some w2
     /\ comp w2 = comp w
     /\ presented w2 = presented w)
  /\ (handle ClickBack w = Some w1 ->
      3 <= step (comp w) \/ nextDisabled 1 (formData (comp w)) = false ->
      exists w2,
        handle ClickNext w1 = Some w2
        /\ comp w2 = comp w
        /\ presented w2 = presented w).
Proof.
  intro Hw. pose proof (reachable_step_range w Hw) as Hr.
  destruct (reachable_invariant w Hw) as (_ & (S1 & S2 & S3) & _).
  split; intro H.
  - destruct (next_inv w w1 H) as (-> & Hm & Hl & Hs & _).
    eexists. split.
    + simpl. rewrite on_screen_shown, wizard_rendered;
        [|exact Hm | exact Hl]. simpl.
      assert ((1 <? step (comp w) + 1) = true) as ->
        by (apply Z.ltb_lt; lia).
      reflexivity.
    + simpl. split; [|reflexivity]. apply setStep_undo. intro x. lia.
  - intro Hg. destruct (back_inv w w1 H) as (-> & Hm & Hl & Hs).
    assert (nextDisabled (step (comp w) - 1) (formData (comp w)) = false)
      as Hn.
    { destruct (Z.eq_dec (step (comp w)) 2) as [E2 | E2].
      - rewrite E2. destruct Hg as [Hg | Hg]; [lia | exact Hg].
      - destruct (Z.eq_dec (step (comp w)) 3) as [E3 | E3].
        + rewrite E3. simpl.
          assert (transportation_type (formData (comp w)) <> []) as Ht
            by (apply S2; lia).
          apply truthy_iff in Ht. rewrite Ht. reflexivity.
        + assert (step (comp w) = 4) as E4 by lia. rewrite E4. simpl.
          assert (heating_type (formData (comp w)) <> []) as Ht
            by (apply S3; lia).
          apply truthy_iff in Ht. rewrite Ht. reflexivity. }
    eexists. split.
    + simpl. rewrite on_screen_shown, wizard_rendered;
        [|exact Hm | exact Hl]. unfold totalSteps. simpl.
      assert ((step (comp w) - 1 <? 4) = true) as ->
        by (apply Z.ltb_lt; lia).
      rewrite Hn. reflexivity.
    + simpl. split; [|reflexivity]. apply setStep_undo. intro x. lia.
Qed.

Lemma back_and_next_undo_each_other_witness :
  reachable example_world
  /\ exists w1 w2,
       handle ClickBack example_world = Some w1
       /\ step (comp w1) = 3
       /\ handle ClickNext w1 = Some w2
       /\ comp w2 = comp example_world.
Proof.
  split; [exact example_world_reachable|].
  destruct (back_and_next_undo_each_other example_world
              (on_comp (setStep (fun prev => prev - 1)) example_world)
              example_world_reachable) as (_ & H).
  destruct (H eq_refl) as (w2 & Hn & Hc & _); [left; simpl; lia|].
  eexists. exists w2. split; [reflexivity|]. split; [reflexivity|].
  split; [exact Hn | exact Hc].
Defined.

(** X15: edits of different fields commute; of two edits of the same
    field the later one wins, except that each toggle undoes itself. *)
Theorem edits_compose (e1 e2 : FieldEdit) (f : FormData) :
  (target e1 <> target e2 ->
   updater e1 (updater e2 f) = updater e2 (updater e1 f))
  /\ (target e1 = target e2 ->
      e1 <> ToggleGarden -> e1 <> ToggleSolarPanels ->
      updater e1 (updater e2 f) = updater e1 f)
  /\ updater ToggleGarden (updater ToggleGarden f) = f
  /\ updater ToggleSolarPanels (updater ToggleSolarPanels f) = f.
Proof.
  destruct f as [n h t sp ht r g rh].
  split; [|split; [|split]].
  - destruct e1, e2; simpl; intro H; try reflexivity; congruence.
  - destruct e1, e2; simpl; intros H H1 H2; try reflexivity;
      try discriminate; congruence.
  - destruct g; reflexivity.
  - destruct sp; reflexivity.
Qed.

Lemma edits_compose_witness :
  let f := initialFormState in
  target (EditName (lit "Ana")) <> target ToggleGarden
  /\ updater (EditName (lit "Ana")) (updater ToggleGarden f)
     = updater ToggleGarden (updater (EditName (lit "Ana")) f)
  /\ updater (PickHeatingType (lit "gas"))
       (updater (PickHeatingType (lit "solar")) f)
     = updater (PickHeatingType (lit "gas")) f.
Proof.
  intro f.
  assert (target (EditName (lit "Ana")) <> target ToggleGarden) as Hd
    by discriminate.
  split; [exact Hd|]. split.
  - exact (proj1 (edits_compose (EditName (lit "Ana")) ToggleGarden f) Hd).
  - destruct (edits_compose (PickHeatingType (lit "gas"))
                (PickHeatingType (lit "solar")) f) as (_ & H & _).
    apply H; [reflexivity | discriminate | discriminate].
Defined.

(** ** The spinner phase *)

Lemma handle_loading_stays_down (ev : Event) (w w' : World) :
  handle ev w = Some w' ->
  loadingUser (comp w) = false -> loadingUser (comp w') = false.
Proof.
  destruct ev; intros H Hl.
  - destruct (back_inv w w' H) as (-> & _). exact Hl.
  - destruct (next_inv w w' H) as (-> & _). exact Hl.
  - destruct (finish_click_inv w w' H) as (-> & _).
    unfold handleSubmit, mutate. destruct (mutationFn_sync _ _); exact Hl.
  - destruct (edit_offered_inv e w w' H) as (-> & _). exact Hl.
  - destruct (lookup_settles_inv o w w' H) as (_ & ->).
    destruct (guard_resume_form (mounted w) o (set_lookup_in_flight false w))
      as (_ & G).
    destruct (loadingUser
                (comp (perform_all (guard_resume (mounted w) o)
                         (set_lookup_in_flight false w)))); [|reflexivity].
    specialize (G eq_refl). simpl in G. congruence.
  - destruct (upsert_settles_inv o w w' H) as (_ & ->).
    destruct (settle_frame o w) as (_ & _ & _ & _ & _ & F). rewrite F.
    exact Hl.
  - destruct (unmount_inv w w' H) as (_ & ->). exact Hl.
  - destruct (exit_complete_inv w w' H) as (-> & _). exact Hl.
  - destruct (notified_inv w w' H) as (-> & _). exact Hl.
  - destruct (earlier_settles_inv o w w' H) as (n & _ & ->).
    rewrite settle_earlier_comp. exact Hl.
Qed.

(** X16: while the spinner shows, the page is untouched: it stands on
    step 1 with the initial form, the mutation has not been used and
    nothing has been sent.  So the [setFormData] of the guard never
    discards anything the user entered.  Once the spinner is gone, no
    event brings it back. *)
Theorem spinner_phase (w : World) :
  reachable w ->
  (loadingUser (comp w) = true ->
   step (comp w) = 1
   /\ formData (comp w) = initialFormState
   /\ updateUser (comp w) = Idle
   /\ upserts w = [])
  /\ (forall o w',
        handle (LookupSettles o) w = Some w' ->
        formData (comp w') = formData (comp w))
  /\ (forall ev w',
        handle ev w = Some w' ->
        loadingUser (comp w) = false -> loadingUser (comp w') = false).
Proof.
  intro Hw. destruct (reachable_invariant w Hw) as (P & _).
  split; [|split].
  - intro Hl. destruct (P Hl) as ((P1 & P2 & P3) & P4). repeat split;
      assumption.
  - intros o w' H. destruct (lookup_settles_inv o w w' H) as (Hf & ->).
    destruct (P (loading_while_lookup w Hw Hf)) as ((_ & P2 & _) & _).
    destruct (guard_resume_form (mounted w) o (set_lookup_in_flight false w))
      as ([G | G] & _); rewrite G; [reflexivity | symmetry; exact P2].
  - intros ev w'. apply handle_loading_stays_down.
Qed.

Lemma spinner_phase_witness :
  reachable (mount (Some ana))
  /\ loadingUser (comp (mount (Some ana))) = true
  /\ formData (comp (mount (Some ana))) = initialFormState
  /\ upserts (mount (Some ana)) = [].
Proof.
  split; [apply reach_mount|]. split; [reflexivity|].
  destruct (spinner_phase (mount (Some ana)) (reach_mount (Some ana)))
    as (H & _).
  destruct (H eq_refl) as (_ & Hf & _ & Hu).
  split; [exact Hf | exact Hu].
Defined.
